(** * netmd-js, [src/queryutils.ts]: the query format interpreter and the BCD helpers

    A shallow embedding of [formatQuery], [scanQuery], [BCD2int] and [int2BCD].

    Data model.
    - A JavaScript number that holds an integer is a [Z]; where the code can
      produce [NaN] (only [Number.parseInt]) the type [number] is used.
    - A [JSBI] big integer is a [Z]; [JSBI.signedRightShift], [JSBI.leftShift],
      [JSBI.bitwiseAnd] and [JSBI.bitwiseOr] are [Z.shiftr], [Z.shiftl],
      [Z.land] and [Z.lor] (two's complement on unbounded integers).
    - The 32-bit operators [<<], [>>>], [&] and [|] of JavaScript are written
      out with their [ToInt32]/[ToUint32] wrap-around.
    - A format string is a Rocq [string]: a sequence of characters with codes
      0..255, walked one character at a time as [for (let char of format)].
    - A JavaScript string value is the list of its UTF-16 code units; no
      limit of an engine on the length of a string or on the number of
      arguments of a call is modelled.
    - The exceptions the code can raise are the constructors of [exn]. *)

From Stdlib Require Import ZArith List String Ascii Bool Lia.
Import ListNotations.
Local Open Scope string_scope.
Local Open Scope list_scope.
Local Open Scope Z_scope.

(** ** JavaScript primitives used by the source *)

Inductive number : Type :=
| Num (z : Z)
| NaN.

Definition ToInt32 (z : Z) : Z := (z + 2 ^ 31) mod 2 ^ 32 - 2 ^ 31.
Definition ToUint32 (z : Z) : Z := z mod 2 ^ 32.
Definition ToUint16 (z : Z) : Z := z mod 2 ^ 16.

(** Element conversion of [new Uint8Array(array)]: modulo 256, [NaN] is 0. *)
Definition ToUint8 (n : number) : Z :=
  match n with
  | Num z => z mod 2 ^ 8
  | NaN => 0
  end.

(** [a << b], [a >> b], [a >>> b], [a & b], [a | b] on integral numbers. *)
Definition js_shl (a b : Z) : Z := ToInt32 (Z.shiftl (ToInt32 a) (ToUint32 b mod 32)).
Definition js_sar (a b : Z) : Z := Z.shiftr (ToInt32 a) (ToUint32 b mod 32).
Definition js_shr (a b : Z) : Z := Z.shiftr (ToUint32 a) (ToUint32 b mod 32).
Definition js_and (a b : Z) : Z := Z.land (ToInt32 a) (ToInt32 b).
Definition js_or (a b : Z) : Z := Z.lor (ToInt32 a) (ToInt32 b).

(** A JavaScript string value: its UTF-16 code units. *)
Definition jsstring : Type := list Z.

(** The code units of a Rocq string literal, for readable examples. *)
Definition str (s : string) : jsstring :=
  List.map (fun c => Z.of_N (N_of_ascii c)) (list_ascii_of_string s).

(** [String.fromCharCode(...codes)]. *)
Definition fromCharCode (codes : list Z) : jsstring := List.map ToUint16 codes.

(** [s.substring(start, end)]: both indices are clamped to [0, s.length] and
    swapped when [start > end]. *)
Definition substring (s : jsstring) (start end_ : Z) : jsstring :=
  let len := Z.of_nat (List.length s) in
  let clamp i := Z.min (Z.max i 0) len in
  let a := Z.min (clamp start) (clamp end_) in
  let b := Z.max (clamp start) (clamp end_) in
  firstn (Z.to_nat (b - a)) (skipn (Z.to_nat a) s).

(** [array.shift()]: removes the first element and returns it, [undefined]
    ([None]) on an empty array. *)
Definition shift {A : Type} (l : list A) : option A * list A :=
  match l with
  | [] => (None, [])
  | x :: l' => (Some x, l')
  end.

(** [array.splice(start)]: the array keeps its first [start] elements and the
    removed rest is returned; a negative [start] counts from the end.  The
    pair is (what stays in the array, what is returned). *)
Definition splice {A : Type} (start : Z) (l : list A) : list A * list A :=
  let len := Z.of_nat (List.length l) in
  let actualStart := if start <? 0 then Z.max (len + start) 0 else Z.min start len in
  (firstn (Z.to_nat actualStart) l, skipn (Z.to_nat actualStart) l).

(** *** [Number.parseInt(string, 16)] *)

(** The white space [parseInt] skips, among the characters 0..255:
    TAB, LF, VT, FF, CR, SP and NBSP. *)
Definition isStrWhiteSpaceChar (c : ascii) : bool :=
  let n := N_of_ascii c in
  (((9 <=? n) && (n <=? 13)) || (n =? 32) || (n =? 160))%N.

Definition hexDigitValue (c : ascii) : option Z :=
  let n := Z.of_N (N_of_ascii c) in
  if (48 <=? n) && (n <=? 57) then Some (n - 48)
  else if (97 <=? n) && (n <=? 102) then Some (n - 87)
  else if (65 <=? n) && (n <=? 70) then Some (n - 55)
  else None.

Fixpoint skipWhiteSpace (s : list ascii) : list ascii :=
  match s with
  | c :: s' => if isStrWhiteSpaceChar c then skipWhiteSpace s' else s
  | [] => []
  end.

(** The value of the longest prefix of hexadecimal digits, [acc] being the
    value of the digits read so far and [seen] whether there is one. *)
Fixpoint hexDigits (s : list ascii) (acc : Z) (seen : bool) : number :=
  match s with
  | c :: s' =>
      match hexDigitValue c with
      | Some d => hexDigits s' (16 * acc + d) true
      | None => if seen then Num acc else NaN
      end
  | [] => if seen then Num acc else NaN
  end.

Definition mulSign (sign : Z) (n : number) : number :=
  match n with
  | Num z => Num (sign * z)
  | NaN => NaN
  end.

Definition parseInt16 (s : list ascii) : number :=
  let s := skipWhiteSpace s in
  let '(sign, s) :=
    match s with
    | "-"%char :: s' => (-1, s')
    | "+"%char :: s' => (1, s')
    | _ => (1, s)
    end in
  let s :=
    match s with
    | "0"%char :: "x"%char :: s' => s'
    | "0"%char :: "X"%char :: s' => s'
    | _ => s
    end in
  mulSign sign (hexDigits s 0 false).

(** ** Values, exceptions and outcomes *)

(** The JavaScript values the two interpreters are given or return.
    [VNumber n] is the number whose value is the integer [n]. *)
Inductive value : Type :=
| VUndefined
| VNumber (n : Z)
| VBigInt (n : Z)
| VString (s : jsstring)
| VUint8Array (bytes : list Z).

Inductive exn : Type :=
| AssertHalfNull
    (* assert(half === null, ...) *)
| AssertString
    (* assertString(value) *)
| AssertUnexpectedType
    (* assert(false, `Unexpected type for value`) *)
| UnrecognizedFormatChar (char : ascii)
    (* assert(false, `Unrecognized format char ${char}`) in formatQuery,
       throw new Error(`Unrecognized format char ${char}`) in scanQuery *)
| BigIntTypeError
    (* JSBI.BigInt(undefined) *)
| Mismatch (i : Z) (formatValue : number) (inputValue : option Z)
    (* `Format and input mismatch at ${i}: expected ${formatValue}, got ${inputValue}` *)
| BytesRemaining (n : nat)
    (* assert(inputStack.length === 0, `${n} Bytes remaining to parse`) *)
| UnsupportedLength
    (* `Unsupported length. Max allowed is 4` *)
| CannotFit (value length : Z).
    (* `Value ${value} cannot fit in ${length} bytes in BCD` *)

(** A call returns, throws, or leaves the embedding: [Unmodelled] marks the
    one place where the result is decided by code that is not embedded (the
    string parser of the JSBI library). *)
Inductive outcome (A : Type) : Type :=
| Ok (a : A)
| Throw (e : exn)
| Unmodelled.
Arguments Ok {A} a.
Arguments Throw {A} e.
Arguments Unmodelled {A}.

Definition bind {A B : Type} (m : outcome A) (k : A -> outcome B) : outcome B :=
  match m with
  | Ok a => k a
  | Throw e => Throw e
  | Unmodelled => Unmodelled
  end.

Notation "x <- m ;; k" := (bind m (fun x => k))
  (at level 61, m at next level, right associativity).

(** [JSBI.BigInt(value)] of the JSBI library: a number or a JSBI instance is
    taken as it is, [undefined] is a [TypeError]; a string or an object goes
    through JSBI's parser, which is not embedded. *)
Definition JSBI_BigInt (v : value) : outcome Z :=
  match v with
  | VNumber n => Ok n
  | VBigInt n => Ok n
  | VUndefined => Throw BigIntTypeError
  | VString _ => Unmodelled
  | VUint8Array _ => Unmodelled
  end.

(** Modelled from the spec: [assert] of [./utils], which is not among the
    sources; a condition that does not hold is fatal to the call, [message]
    standing for the error raised. *)
Definition assert (condition : bool) (message : exn) : outcome unit :=
  if condition then Ok tt else Throw message.

Definition isNull {A : Type} (x : option A) : bool :=
  match x with
  | None => true
  | Some _ => false
  end.

(** Modelled from the spec: [assertString] of [./utils], which is not among
    the sources; the argument is required to be a string and a wrong type is
    fatal. *)
Definition assertString (v : value) : outcome jsstring :=
  match v with
  | VString s => Ok s
  | _ => Throw AssertString
  end.

(** Modelled from the spec: [stringToCharCodeArray] of [./utils], which is not
    among the sources; the raw character codes of the string, one per
    character. *)
Definition stringToCharCodeArray (s : jsstring) : list number := List.map Num s.

(** [FORMAT_TYPE_LEN_DICT]. *)
Definition FORMAT_TYPE_LEN_DICT (char : ascii) : option nat :=
  if Ascii.eqb char "b" then Some 1%nat
  else if Ascii.eqb char "w" then Some 2%nat
  else if Ascii.eqb char "d" then Some 4%nat
  else if Ascii.eqb char "q" then Some 8%nat
  else None.

(** ** [formatQuery] *)

Module FormatQuery.

Record state : Type := mkState {
  result : list number;
  half : option ascii;
  argStack : list value;
  escaped : bool
}.

Definition init (args : list value) : state :=
  {| result := []; half := None; argStack := args; escaped := false |}.

(** The loop [for (byte = n - 1; byte >= 0; byte--)] over a width [n]. *)
Fixpoint pushBytes (n : nat) (numberValue : Z) : list number :=
  match n with
  | O => []
  | S byte =>
      let v := Z.shiftr numberValue (Z.of_nat byte * 8) in
      let v := Z.land v 255 in
      Num v :: pushBytes byte numberValue
  end.

(** One turn of the loop over the characters of the format. *)
Definition step (st : state) (char : ascii) : outcome state :=
  if escaped st then
    let '(shifted, argStack') := shift (argStack st) in
    let value := match shifted with Some v => v | None => VUndefined end in
    let push bytes :=
      {| result := result st ++ bytes; half := half st;
         argStack := argStack'; escaped := false |} in
    match FORMAT_TYPE_LEN_DICT char with
    | Some width =>
        numberValue <- JSBI_BigInt value ;;
        Ok (push (pushBytes width numberValue))
    | None =>
        if Ascii.eqb char "x" || Ascii.eqb char "s" then
          stringValue <- assertString value ;;
          let stringLength := Z.of_nat (List.length stringValue) in
          let stringLength :=
            if Ascii.eqb char "s" then stringLength + 1 else stringLength in
          Ok (push ([Num (js_and (js_sar stringLength 8) 255);
                     Num (js_and stringLength 255)]
                    ++ stringToCharCodeArray stringValue
                    ++ (if Ascii.eqb char "s" then [Num 0] else [])))
        else if Ascii.eqb char "*" then
          match value with
          | VString s => Ok (push (stringToCharCodeArray s))
          | VUint8Array bytes => Ok (push (List.map Num bytes))
          | _ => _ <- assert false AssertUnexpectedType ;; Ok (push [])
          end
        else _ <- assert false (UnrecognizedFormatChar char) ;; Ok (push [])
    end
  else if Ascii.eqb char "%" then
    _ <- assert (isNull (half st)) AssertHalfNull ;;
    Ok {| result := result st; half := half st;
          argStack := argStack st; escaped := true |}
  else if Ascii.eqb char " " then Ok st
  else
    match half st with
    | None =>
        Ok {| result := result st; half := Some char;
              argStack := argStack st; escaped := escaped st |}
    | Some h =>
        Ok {| result := result st ++ [parseInt16 [h; char]]; half := None;
              argStack := argStack st; escaped := escaped st |}
    end.

Fixpoint walk (st : state) (format : string) : outcome state :=
  match format with
  | EmptyString => Ok st
  | String char format' => st' <- step st char ;; walk st' format'
  end.

End FormatQuery.

(** [formatQuery(format, ...args)]: the bytes of the returned buffer. *)
Definition formatQuery (format : string) (args : list value) : outcome (list Z) :=
  st <- FormatQuery.walk (FormatQuery.init args) format ;;
  Ok (List.map ToUint8 (FormatQuery.result st)).


(** ** [scanQuery] *)

Module ScanQuery.

Record state : Type := mkState {
  result : list value;
  inputStack : list Z;
  half : option ascii;
  escaped : bool
}.

Definition init (query : list Z) : state :=
  {| result := []; inputStack := query; half := None; escaped := false |}.

(** What [inputStack.shift()] hands to [JSBI.BigInt]. *)
Definition shifted_value (x : option Z) : value :=
  match x with
  | Some n => VNumber n
  | None => VUndefined
  end.

(** What [inputStack.shift()] is as an operand of [<<] or [|]: [undefined]
    converts to 0. *)
Definition shifted_operand (x : option Z) : Z :=
  match x with
  | Some n => n
  | None => 0
  end.

(** The loop [for (byte = n - 1; byte >= 0; byte--)] over a width [n]:
    the rebuilt integer and the input left. *)
Fixpoint readBytes (n : nat) (value : Z) (inputStack : list Z)
  : outcome (Z * list Z) :=
  match n with
  | O => Ok (value, inputStack)
  | S byte =>
      let '(x, inputStack') := shift inputStack in
      v <- JSBI_BigInt (shifted_value x) ;;
      let v := Z.shiftl v (Z.of_nat byte * 8) in
      readBytes byte (Z.lor value v) inputStack'
  end.

(** [formatValue != inputValue]: a number never equals [undefined], and
    [NaN] equals nothing. *)
Definition differs (formatValue : number) (inputValue : option Z) : bool :=
  match formatValue, inputValue with
  | Num f, Some i => negb (f =? i)
  | _, _ => true
  end.

(** One turn of the loop over the characters of the format. *)
Definition step (initialLength : Z) (st : state) (char : ascii) : outcome state :=
  if escaped st then
    if Ascii.eqb char "?" then
      Ok {| result := result st; inputStack := snd (shift (inputStack st));
            half := half st; escaped := false |}
    else
      match FORMAT_TYPE_LEN_DICT char with
      | Some width =>
          r <- readBytes width 0 (inputStack st) ;;
          Ok {| result := result st ++ [VBigInt (fst r)]; inputStack := snd r;
                half := half st; escaped := false |}
      | None =>
          if Ascii.eqb char "s" || Ascii.eqb char "x" then
            let '(hi, stack1) := shift (inputStack st) in
            let '(lo, stack2) := shift stack1 in
            let length := js_or (js_shl (shifted_operand hi) 8) (shifted_operand lo) in
            let '(kept, newInputStack) := splice length stack2 in
            let value := fromCharCode kept in
            let pushed :=
              if Ascii.eqb char "s"
              then substring value 0 (Z.of_nat (List.length value) - 1)
              else value in
            Ok {| result := result st ++ [VString pushed];
                  inputStack := newInputStack;
                  half := half st; escaped := false |}
          else if Ascii.eqb char "*" then
            Ok {| result := result st ++ [VString (fromCharCode (inputStack st))];
                  inputStack := [];
                  half := half st; escaped := false |}
          else if Ascii.eqb char "#" then
            Ok {| result := result st
                            ++ [VUint8Array (List.map (fun n => ToUint8 (Num n))
                                                      (inputStack st))];
                  inputStack := [];
                  half := half st; escaped := false |}
          else Throw (UnrecognizedFormatChar char)
      end
  else if Ascii.eqb char "%" then
    _ <- assert (isNull (half st)) AssertHalfNull ;;
    Ok {| result := result st; inputStack := inputStack st;
          half := half st; escaped := true |}
  else if Ascii.eqb char " " then Ok st
  else
    match half st with
    | None =>
        Ok {| result := result st; inputStack := inputStack st;
              half := Some char; escaped := escaped st |}
    | Some h =>
        let '(inputValue, inputStack') := shift (inputStack st) in
        let formatValue := parseInt16 [h; char] in
        if differs formatValue inputValue then
          let i := initialLength - Z.of_nat (List.length inputStack') - 1 in
          Throw (Mismatch i formatValue inputValue)
        else
          Ok {| result := result st; inputStack := inputStack';
                half := None; escaped := escaped st |}
    end.

Fixpoint walk (initialLength : Z) (st : state) (format : string) : outcome state :=
  match format with
  | EmptyString => Ok st
  | String char format' =>
      st' <- step initialLength st char ;; walk initialLength st' format'
  end.

End ScanQuery.

(** [scanQuery(query, format)], [query] being the bytes of the buffer (or the
    numbers of the array) it is given. *)
Definition scanQuery (query : list Z) (format : string) : outcome (list value) :=
  let initialLength := Z.of_nat (List.length query) in
  st <- ScanQuery.walk initialLength (ScanQuery.init query) format ;;
  _ <- assert (Nat.eqb (List.length (ScanQuery.inputStack st)) 0)
              (BytesRemaining (List.length (ScanQuery.inputStack st))) ;;
  Ok (ScanQuery.result st).

(** ** [BCD2int] and [int2BCD] *)

(** The [while] loops are run on fuel: [None] is a loop that has not ended
    when the fuel is used up. *)

Fixpoint BCD2int_loop (fuel : nat) (bcd value nibble : Z) : option Z :=
  if bcd =? 0 then Some value
  else
    match fuel with
    | O => None
    | S fuel' =>
        let nibbleValue := js_and bcd 15 in
        let bcd := js_shr bcd 4 in
        let value := value + nibbleValue * 10 ^ nibble in
        BCD2int_loop fuel' bcd value (nibble + 1)
    end.

Definition BCD2int (fuel : nat) (bcd : Z) : option Z :=
  BCD2int_loop fuel bcd 0 0.

Fixpoint int2BCD_loop (fuel : nat) (value bcd nibble : Z) : option Z :=
  if value =? 0 then Some bcd
  else
    match fuel with
    | O => None
    | S fuel' =>
        let nibbleValue := Z.rem value 10 in
        let value' := value / 10 in
        let bcd := js_or bcd (js_shl nibbleValue (4 * nibble)) in
        int2BCD_loop fuel' value' bcd (nibble + 1)
    end.

(** [int2BCD(value, length)].  [Math.pow(10, length * 2)] is [10 ^ (length * 2)];
    for a negative [length] the JavaScript power lies in the interval from 0
    (included) to 1, so that an integer exceeds it minus 1 exactly when it
    exceeds -1, which is what [Z.pow] (0 on a negative exponent) gives. *)
Definition int2BCD (fuel : nat) (value length : Z) : option (outcome Z) :=
  if length >? 4 then Some (Throw UnsupportedLength)
  else if value >? 10 ^ (length * 2) - 1 then Some (Throw (CannotFit value length))
  else option_map Ok (int2BCD_loop fuel value 0 0).

(** [int2BCD(value)], the length left to its default. *)
Definition int2BCD_default (fuel : nat) (value : Z) : option (outcome Z) :=
  int2BCD fuel value 1.

(** ** Notions the specification uses *)

(** The format made of the single token [%char]. *)
Definition tokenFormat (char : ascii) : string := String "%" (String char EmptyString).

(** A byte: an integer from 0 to 255. *)
Definition isByte (b : Z) : bool := (0 <=? b) && (b <? 256).

(** The bytes of [n] on [width] bytes, most significant first: the byte of
    index [i] is [n] shifted right by [8 * (width - 1 - i)] and masked with
    [0xff]. *)
Definition bigEndianBytes (width : nat) (n : Z) : list Z :=
  List.map (fun i => Z.land (Z.shiftr n (8 * (Z.of_nat width - 1 - Z.of_nat i))) 255)
           (seq 0 width).


(** The term of a digit in a positional sum: the digit of [x] in base [a]
    at position [p], times [b ^ (pos + p)]. *)
Definition positionalTerm (a b x pos : Z) (p : nat) : Z :=
  (x / a ^ Z.of_nat p) mod a * b ^ (pos + Z.of_nat p).

(** The nibble of [bcd] at a position, the least significant being at 0. *)
Definition nibble (bcd : Z) (position : nat) : Z :=
  (bcd / 16 ^ Z.of_nat position) mod 16.

(** The sum of [nibbleValue * 10 ^ position] over the first [n] positions. *)
Definition nibble_sum (n : nat) (bcd : Z) : Z :=
  fold_right Z.add 0
             (List.map (fun p => nibble bcd p * 10 ^ Z.of_nat p) (seq 0 n)).

(** The decimal digit of [value] at a position, the least significant being
    at 0. *)
Definition digit (value : Z) (position : nat) : Z :=
  (value / 10 ^ Z.of_nat position) mod 10.

(** Packed BCD on [n] nibbles: every decimal digit in the nibble of its
    position. *)
Definition packedBCD (n : nat) (value : Z) : Z :=
  fold_right Z.add 0
             (List.map (fun p => digit value p * 16 ^ Z.of_nat p) (seq 0 n)).

(** The characters [formatQuery] takes after the escape marker. *)
Definition formatTokenChar (char : ascii) : bool :=
  match FORMAT_TYPE_LEN_DICT char with
  | Some _ => true
  | None => Ascii.eqb char "x" || Ascii.eqb char "s" || Ascii.eqb char "*"
  end.

(** The characters [scanQuery] takes after the escape marker. *)
Definition scanTokenChar (char : ascii) : bool :=
  Ascii.eqb char "?"
  || match FORMAT_TYPE_LEN_DICT char with
     | Some _ => true
     | None => Ascii.eqb char "s" || Ascii.eqb char "x"
               || Ascii.eqb char "*" || Ascii.eqb char "#"
     end.

(** What the characters of a format leave pending, whatever the data: the
    half of a literal byte that waits for its second digit, and whether the
    last character was an escape marker still to be applied.  [None] is a
    format with an escape marker inside a literal byte, which both
    interpreters refuse. *)
Fixpoint pending (half : option ascii) (escaped : bool) (format : string)
  : option (option ascii * bool) :=
  match format with
  | EmptyString => Some (half, escaped)
  | String char format' =>
      if escaped then pending half false format'
      else if Ascii.eqb char "%" then
        match half with
        | None => pending None true format'
        | Some _ => None
        end
      else if Ascii.eqb char " " then pending half false format'
      else
        match half with
        | None => pending (Some char) false format'
        | Some _ => pending None false format'
        end
  end.

(** The number of bytes a format consumes when it is made of literal bytes,
    spaces and the fixed-width tokens [b], [w], [d], [q] only, read from a
    control state; [None] for any other format. *)
Fixpoint fixedSize (half : option ascii) (escaped : bool) (format : string)
  : option nat :=
  match format with
  | EmptyString => Some 0%nat
  | String char format' =>
      if escaped then
        match FORMAT_TYPE_LEN_DICT char with
        | Some width => option_map (Nat.add width) (fixedSize half false format')
        | None => None
        end
      else if Ascii.eqb char "%" then
        match half with
        | None => fixedSize None true format'
        | Some _ => None
        end
      else if Ascii.eqb char " " then fixedSize half false format'
      else
        match half with
        | None => fixedSize (Some char) false format'
        | Some _ => option_map S (fixedSize None false format')
        end
  end.

(** The errors of a token that finds no byte left: the conversion of
    [undefined] by [JSBI.BigInt], and the mismatch of a literal byte with
    [undefined]. *)
Definition underflow (e : exn) : Prop :=
  e = BigIntTypeError \/ exists i formatValue, e = Mismatch i formatValue None.

(** Whether an argument suits a token of [formatQuery] and is decoded back
    from its encoding: an integer in the range of the width, a string of
    byte-sized characters whose length prefix fits in two bytes. *)
Definition tokenArg (char : ascii) (v : value) : bool :=
  match FORMAT_TYPE_LEN_DICT char with
  | Some width =>
      match v with
      | VNumber n | VBigInt n => (0 <=? n) && (n <? 2 ^ (8 * Z.of_nat width))
      | _ => false
      end
  | None =>
      match v with
      | VString s =>
          forallb isByte s
          && (if Ascii.eqb char "x" then Z.of_nat (List.length s) <? 65536
              else if Ascii.eqb char "s" then Z.of_nat (List.length s) + 1 <? 65536
              else Ascii.eqb char "*")
      | _ => false
      end
  end.

Definition isNil {A : Type} (l : list A) : bool :=
  match l with
  | [] => true
  | _ :: _ => false
  end.

(** A format of typed tokens (and spaces) only, with one suitable argument
    per token, the token [*] being the last one if there is one. *)
Fixpoint typedFormat (escaped : bool) (format : string) (args : list value) : bool :=
  match format with
  | EmptyString => negb escaped && isNil args
  | String char format' =>
      if escaped then
        match args with
        | v :: args' =>
            tokenArg char v
            && (if Ascii.eqb char "*" then isNil args' else true)
            && typedFormat false format' args'
        | [] => false
        end
      else if Ascii.eqb char "%" then typedFormat true format' args
      else if Ascii.eqb char " " then typedFormat false format' args
      else false
  end.

(** An argument as [scanQuery] returns it: an integer comes back as a JSBI
    integer. *)
Definition decodedArg (v : value) : value :=
  match v with
  | VNumber n => VBigInt n
  | _ => v
  end.

(** ** Further notions, for the properties beyond the claims *)

(** The sum of the first [n] digits of [x] in base [a], the digit of
    position [p] weighted by [b ^ p]: [nibble_sum] is this sum for the bases
    16 and 10, [packedBCD] for the bases 10 and 16. *)
Definition positionalSum (a b : Z) (n : nat) (x : Z) : Z :=
  fold_right Z.add 0 (List.map (positionalTerm a b x 0) (seq 0 n)).

(** Every character of code 0 to 255. *)
Definition allAscii : list ascii := List.map ascii_of_nat (seq 0 256).

(** Whether [parseInt16] reads two hexadecimal digits as the byte they
    write (no demand on other characters). *)
Definition hexPairOk (h c : ascii) : bool :=
  match hexDigitValue h, hexDigitValue c with
  | Some a, Some b =>
      match parseInt16 [h; c] with
      | Num v => v =? 16 * a + b
      | NaN => false
      end
  | _, _ => true
  end.

(** A format as the queries of the library write them: literal bytes, each
    of two hexadecimal digits, spaces, and the tokens [b], [w], [d], [q],
    [x], [s], with one suitable argument per token; read from a control
    state, nothing being pending at the end. *)
Fixpoint wireFormat (half : option ascii) (escaped : bool) (format : string)
         (args : list value) : bool :=
  match format with
  | EmptyString => isNull half && negb escaped && isNil args
  | String char format' =>
      if escaped then
        match args with
        | v :: args' =>
            tokenArg char v && negb (Ascii.eqb char "*")
            && wireFormat half false format' args'
        | [] => false
        end
      else if Ascii.eqb char "%" then isNull half && wireFormat half true format' args
      else if Ascii.eqb char " " then wireFormat half false format' args
      else
        match hexDigitValue char, half with
        | Some _, None => wireFormat (Some char) false format' args
        | Some _, Some h =>
            match hexDigitValue h with
            | Some _ => wireFormat None false format' args
            | None => false
            end
        | None, _ => false
        end
  end.

(** A format without an escape marker: literal bytes and spaces only. *)
Fixpoint noEscape (format : string) : bool :=
  match format with
  | EmptyString => true
  | String char format' => negb (Ascii.eqb char "%") && noEscape format'
  end.

(** The literal values of a format without an escape marker, as
    [Number.parseInt] reads its pairs of characters, [half] being the first
    character of a pair already read. *)
Fixpoint literals (half : option ascii) (format : string) : list number :=
  match format with
  | EmptyString => []
  | String char format' =>
      if Ascii.eqb char " " then literals half format'
      else
        match half with
        | None => literals (Some char) format'
        | Some h => parseInt16 [h; char] :: literals None format'
        end
  end.

(** The number of tokens of a format: the characters read in escaped mode. *)
Fixpoint tokenCount (escaped : bool) (format : string) : nat :=
  match format with
  | EmptyString => O
  | String char format' =>
      if escaped then S (tokenCount false format')
      else tokenCount (Ascii.eqb char "%") format'
  end.

(** * Properties *)

(** ** Arithmetic of the 32-bit operators *)

(** Side conditions on the 32-bit range, quotients and remainders by
    constants included. *)
Ltac int32_range :=
  change (2 ^ 31) with 2147483648 in *;
  change (2 ^ 32) with 4294967296 in *;
  Z.div_mod_to_equations; lia.

Lemma ToInt32_small (z : Z) : - 2 ^ 31 <= z < 2 ^ 31 -> ToInt32 z = z.
Proof.
  unfold ToInt32. change (2 ^ 31) with 2147483648.
  change (2 ^ 32) with 4294967296. intros H.
  Z.div_mod_to_equations. lia.
Qed.

Lemma ToUint32_small (z : Z) : 0 <= z < 2 ^ 32 -> ToUint32 z = z.
Proof. intros H. unfold ToUint32. now apply Z.mod_small. Qed.

Lemma ToInt32_mod16 (z : Z) : ToInt32 z mod 16 = z mod 16.
Proof.
  unfold ToInt32. change (2 ^ 31) with 2147483648.
  change (2 ^ 32) with 4294967296.
  Z.div_mod_to_equations. lia.
Qed.

Lemma js_and_15 (z : Z) : js_and z 15 = z mod 16.
Proof.
  unfold js_and. rewrite (ToInt32_small 15) by (cbv; split; congruence).
  change 15 with (Z.ones 4). rewrite Z.land_ones by lia.
  apply ToInt32_mod16.
Qed.

Lemma js_shr_4 (z : Z) : js_shr z 4 = ToUint32 z / 16.
Proof.
  unfold js_shr. change (ToUint32 4 mod 32) with 4.
  now rewrite Z.shiftr_div_pow2 by lia.
Qed.

(** ** [BCD2int] *)

(** Sums over the positions of a numeral in base [a], weighted by the
    powers of [b]: the nibbles of a BCD value and the digits of an integer. *)
Section Positional.

Variables a b : Z.
Hypothesis a_pos : 0 < a.

Lemma positional_shift (n : nat) (x pos : Z) :
  fold_right Z.add 0 (List.map (positionalTerm a b x pos) (seq 0 (S n)))
  = x mod a * b ^ pos
    + fold_right Z.add 0 (List.map (positionalTerm a b (x / a) (pos + 1)) (seq 0 n)).
Proof.
  cbn [seq List.map fold_right]. unfold positionalTerm at 1.
  cbn [Z.of_nat]. rewrite Z.pow_0_r, Z.div_1_r, Z.add_0_r.
  f_equal. rewrite <- seq_shift, map_map. f_equal.
  apply map_ext. intros p. unfold positionalTerm. f_equal.
  - f_equal. rewrite Nat2Z.inj_succ, Z.pow_succ_r by lia.
    now rewrite Z.div_div by lia.
  - f_equal. lia.
Qed.

Lemma positional_zero (n : nat) (pos : Z) :
  fold_right Z.add 0 (List.map (positionalTerm a b 0 pos) (seq 0 n)) = 0.
Proof.
  generalize 0%nat. induction n as [|n IH]; intros s; cbn [seq List.map fold_right].
  - reflexivity.
  - rewrite IH. unfold positionalTerm. now rewrite Z.div_0_l, Z.mod_0_l by lia.
Qed.

Lemma positional_nonneg (n : nat) (x pos : Z) :
  0 <= b ->
  0 <= fold_right Z.add 0 (List.map (positionalTerm a b x pos) (seq 0 n)).
Proof.
  intros Hb. generalize 0%nat.
  induction n as [|n IH]; intros s; cbn [seq List.map fold_right]; [lia|].
  specialize (IH (S s)). unfold positionalTerm at 1.
  assert (0 <= (x / a ^ Z.of_nat s) mod a) by (apply Z.mod_pos_bound; lia).
  assert (0 <= b ^ (pos + Z.of_nat s)) by (apply Z.pow_nonneg; lia).
  nia.
Qed.

End Positional.

Lemma nibble_sum_shift (n : nat) (bcd : Z) (pos : Z) :
  fold_right Z.add 0
    (List.map (fun p => nibble bcd p * 10 ^ (pos + Z.of_nat p)) (seq 0 (S n)))
  = bcd mod 16 * 10 ^ pos
    + fold_right Z.add 0
        (List.map (fun p => nibble (bcd / 16) p * 10 ^ (pos + 1 + Z.of_nat p)) (seq 0 n)).
Proof. exact (positional_shift 16 10 ltac:(lia) n bcd pos). Qed.

Lemma nibble_sum_zero (n : nat) (pos : Z) :
  fold_right Z.add 0
    (List.map (fun p => nibble 0 p * 10 ^ (pos + Z.of_nat p)) (seq 0 n)) = 0.
Proof. exact (positional_zero 16 10 ltac:(lia) n pos). Qed.

(** The loop, started on a value of at most [n] nibbles with fuel for [n]
    turns, adds the sum over those nibbles. *)
Lemma BCD2int_loop_sum (n : nat) :
  forall (fuel : nat) (bcd value pos : Z),
    (n <= fuel)%nat -> 0 <= bcd < 16 ^ Z.of_nat n -> bcd < 2 ^ 32 -> 0 <= pos ->
    BCD2int_loop fuel bcd value pos
    = Some (value
            + fold_right Z.add 0
                (List.map (fun p => nibble bcd p * 10 ^ (pos + Z.of_nat p)) (seq 0 n))).
Proof.
  induction n as [|n IH]; intros fuel bcd value pos Hfuel Hbcd H32 Hpos.
  - assert (bcd = 0) by (cbn in Hbcd; lia). subst bcd.
    destruct fuel; cbn; f_equal; lia.
  - destruct (Z.eqb_spec bcd 0) as [->|Hnz].
    + rewrite nibble_sum_zero. destruct fuel; cbn; f_equal; lia.
    + destruct fuel as [|fuel]; [lia|].
      cbn [BCD2int_loop]. destruct (Z.eqb_spec bcd 0) as [|_]; [contradiction|].
      rewrite js_and_15, js_shr_4, ToUint32_small by lia.
      rewrite Nat2Z.inj_succ, Z.pow_succ_r in Hbcd by lia.
      rewrite IH; try lia.
      * rewrite nibble_sum_shift. f_equal. lia.
      * split; [apply Z.div_pos; lia|].
        apply Z.div_lt_upper_bound; lia.
      * apply Z.le_lt_trans with bcd; [|lia].
        apply Z.div_le_upper_bound; lia.
Qed.

Lemma nibble_sum_pos0 (n : nat) (bcd : Z) :
  fold_right Z.add 0
    (List.map (fun p => nibble bcd p * 10 ^ (0 + Z.of_nat p)) (seq 0 n))
  = nibble_sum n bcd.
Proof. reflexivity. Qed.

Lemma ToUint32_mod16 (z : Z) : ToUint32 z mod 16 = z mod 16.
Proof.
  unfold ToUint32. change (2 ^ 32) with 4294967296.
  Z.div_mod_to_equations. lia.
Qed.

(** On every integer the loop ends within eight turns, on the low 32 bits. *)
Lemma BCD2int_low32 (fuel : nat) (bcd : Z) :
  (8 <= fuel)%nat -> BCD2int fuel bcd = Some (nibble_sum 8 (ToUint32 bcd)).
Proof.
  intros Hfuel. unfold BCD2int.
  assert (H32 : 0 <= ToUint32 bcd < 2 ^ 32) by (apply Z.mod_pos_bound; lia).
  destruct (Z.eqb_spec bcd 0) as [->|Hnz].
  - destruct fuel; reflexivity.
  - destruct fuel as [|fuel]; [lia|].
    cbn [BCD2int_loop]. destruct (Z.eqb_spec bcd 0) as [|_]; [contradiction|].
    rewrite js_and_15, js_shr_4.
    change (2 ^ 32) with 4294967296 in H32.
    rewrite (BCD2int_loop_sum 7); try lia.
    + rewrite <- (nibble_sum_pos0 8).
      rewrite (nibble_sum_shift 7).
      rewrite ToUint32_mod16, Z.pow_0_r. f_equal; try lia.
    + change (16 ^ Z.of_nat 7) with 268435456.
      split; [apply Z.div_pos; lia|]. apply Z.div_lt_upper_bound; lia.
    + apply Z.div_lt_upper_bound; lia.
Qed.

(** C8, as amended.  [BCD2int] returns on every integer (fuel for eight turns
    of its loop is enough), and on a non-negative integer below [2 ^ 32] it
    returns the sum over the eight nibble positions of
    [nibbleValue * 10 ^ position], the least significant nibble first; a
    nibble from 10 to 15 is accepted and counts with its value;
    [BCD2int(0x1234) = 1234]. *)
Theorem BCD2int_nibble_sum (fuel : nat) (bcd : Z) :
  (8 <= fuel)%nat ->
  (exists value, BCD2int fuel bcd = Some value)
  /\ (0 <= bcd < 2 ^ 32 -> BCD2int fuel bcd = Some (nibble_sum 8 bcd))
  /\ BCD2int fuel 0x1234 = Some 1234
  /\ BCD2int fuel 0xF = Some 15
  /\ BCD2int fuel 0x1A = Some 20.
Proof.
  intros Hfuel. repeat split.
  - eexists. now apply BCD2int_low32.
  - intros Hbcd. rewrite BCD2int_low32 by assumption.
    now rewrite ToUint32_small.
  - now rewrite BCD2int_low32.
  - now rewrite BCD2int_low32.
  - now rewrite BCD2int_low32.
Qed.

Lemma BCD2int_nibble_sum_witness :
  (8 <= 8)%nat /\ BCD2int 8 0x99999999 = Some 99999999.
Proof.
  split; [lia|].
  refine (proj1 (proj2 (BCD2int_nibble_sum 8 0x99999999 _)) _); [lia|].
  split; [discriminate | reflexivity].
Defined.

(** C8 as it is stated fails above 32 bits: [BCD2int(2 ^ 32)] is 0, while the
    nibble of position 8 of [2 ^ 32] is 1 and the sum over the nibble
    positions is [10 ^ 8]. *)
Lemma BCD2int_above_32_bits :
  BCD2int 9 (2 ^ 32) = Some 0 /\ nibble_sum 9 (2 ^ 32) = 10 ^ 8.
Proof. split; reflexivity. Qed.
(** ** [int2BCD] *)

Lemma digit_sum_shift (n : nat) (value : Z) (pos : Z) :
  fold_right Z.add 0
    (List.map (fun p => digit value p * 16 ^ (pos + Z.of_nat p)) (seq 0 (S n)))
  = value mod 10 * 16 ^ pos
    + fold_right Z.add 0
        (List.map (fun p => digit (value / 10) p * 16 ^ (pos + 1 + Z.of_nat p)) (seq 0 n)).
Proof. exact (positional_shift 10 16 ltac:(lia) n value pos). Qed.

Lemma digit_sum_zero (n : nat) (pos : Z) :
  fold_right Z.add 0
    (List.map (fun p => digit 0 p * 16 ^ (pos + Z.of_nat p)) (seq 0 n)) = 0.
Proof. exact (positional_zero 10 16 ltac:(lia) n pos). Qed.

(** Or-ing into the bits above an accumulator adds. *)
Lemma lor_above (acc d m : Z) :
  0 <= m -> 0 <= acc < 2 ^ m -> Z.lor acc (d * 2 ^ m) = acc + d * 2 ^ m.
Proof.
  intros Hm Hacc.
  rewrite <- Z.shiftl_mul_pow2 by lia.
  rewrite Z.add_nocarry_lxor, Z.lxor_lor; trivial;
    apply Z.bits_inj'; intros i Hi;
    rewrite Z.land_spec, Z.bits_0;
    destruct (Z.lt_ge_cases i m) as [Hlt|Hge].
  - now rewrite Z.shiftl_spec_low, andb_false_r.
  - rewrite <- (Z.mod_small acc (2 ^ m)) by lia.
    now rewrite Z.mod_pow2_bits_high by lia.
  - now rewrite Z.shiftl_spec_low, andb_false_r.
  - rewrite <- (Z.mod_small acc (2 ^ m)) by lia.
    now rewrite Z.mod_pow2_bits_high by lia.
Qed.

Lemma pow16_pow2 (n : Z) : 0 <= n -> 16 ^ n = 2 ^ (4 * n).
Proof. intros Hn. change 16 with (2 ^ 4). now rewrite <- Z.pow_mul_r by lia. Qed.

(** The loop on a non-negative value ends within as many turns as the value
    has digits. *)
Lemma int2BCD_loop_terminates (k : nat) :
  forall (fuel : nat) (value bcd nib : Z),
    (k <= fuel)%nat -> 0 <= value < 10 ^ Z.of_nat k ->
    exists r, int2BCD_loop fuel value bcd nib = Some r.
Proof.
  induction k as [|k IH]; intros fuel value bcd nib Hfuel Hvalue.
  - assert (value = 0) by (cbn in Hvalue; lia). subst value.
    exists bcd. destruct fuel; reflexivity.
  - destruct (Z.eqb_spec value 0) as [->|Hnz].
    + exists bcd. destruct fuel; reflexivity.
    + destruct fuel as [|fuel]; [lia|].
      cbn [int2BCD_loop]. destruct (Z.eqb_spec value 0) as [|_]; [contradiction|].
      apply IH; [lia|].
      rewrite Nat2Z.inj_succ, Z.pow_succ_r in Hvalue by lia.
      split; [apply Z.div_pos; lia|]. apply Z.div_lt_upper_bound; lia.
Qed.

(** The loop on a negative value never ends. *)
Lemma int2BCD_loop_negative (fuel : nat) :
  forall value bcd nib : Z, value < 0 -> int2BCD_loop fuel value bcd nib = None.
Proof.
  induction fuel as [|fuel IH]; intros value bcd nib Hneg; cbn [int2BCD_loop];
    destruct (Z.eqb_spec value 0) as [|_]; try lia; trivial.
  apply IH. apply Z.div_lt_upper_bound; lia.
Qed.

(** While the digits stay below the sign bit of a 32-bit integer, the loop
    packs every digit into the nibble of its position. *)
Lemma int2BCD_loop_packs (k : nat) :
  forall (fuel : nat) (value bcd : Z) (nib : nat),
    (k <= fuel)%nat -> 0 <= value < 10 ^ Z.of_nat k ->
    value * 10 ^ Z.of_nat nib < 80000000 ->
    0 <= bcd < 16 ^ Z.of_nat nib ->
    int2BCD_loop fuel value bcd (Z.of_nat nib)
    = Some (bcd
            + fold_right Z.add 0
                (List.map (fun p => digit value p * 16 ^ (Z.of_nat nib + Z.of_nat p))
                          (seq 0 k))).
Proof.
  induction k as [|k IH]; intros fuel value bcd nib Hfuel Hvalue Htop Hbcd.
  - assert (value = 0) by (cbn in Hvalue; lia). subst value.
    destruct fuel; cbn; f_equal; lia.
  - destruct (Z.eqb_spec value 0) as [->|Hnz].
    + rewrite digit_sum_zero. destruct fuel; cbn; f_equal; lia.
    + destruct fuel as [|fuel]; [lia|].
      cbn [int2BCD_loop]. destruct (Z.eqb_spec value 0) as [|_]; [contradiction|].
      rewrite Nat2Z.inj_succ, Z.pow_succ_r in Hvalue by lia.
      assert (Hd : 0 <= value mod 10 < 10) by (apply Z.mod_pos_bound; lia).
      assert (Hle : value mod 10 <= value) by (apply Z.mod_le; lia).
      assert (Hq : 0 <= value / 10) by (apply Z.div_pos; lia).
      assert (Hdm : value = 10 * (value / 10) + value mod 10) by (apply Z.div_mod; lia).
      assert (Hnib : (nib <= 7)%nat).
      { destruct (Nat.le_gt_cases nib 7) as [|Hgt]; trivial. exfalso.
        assert (10 ^ 8 <= 10 ^ Z.of_nat nib) by (apply Z.pow_le_mono_r; lia).
        change (10 ^ 8) with 100000000 in *. nia. }
      assert (Hshift : value mod 10 * 16 ^ Z.of_nat nib < 2 ^ 31).
      { change (2 ^ 31) with 2147483648.
        destruct (Nat.eq_dec nib 7) as [->|Hne].
        - change (10 ^ Z.of_nat 7) with 10000000 in Htop.
          change (16 ^ Z.of_nat 7) with 268435456. lia.
        - assert (16 ^ Z.of_nat nib <= 16 ^ 6) by (apply Z.pow_le_mono_r; lia).
          change (16 ^ 6) with 16777216 in *.
          assert (0 < 16 ^ Z.of_nat nib) by (apply Z.pow_pos_nonneg; lia).
          nia. }
      assert (H16 : 0 < 16 ^ Z.of_nat nib) by (apply Z.pow_pos_nonneg; lia).
      assert (Hs : js_shl (Z.rem value 10) (4 * Z.of_nat nib)
                   = value mod 10 * 16 ^ Z.of_nat nib).
      { unfold js_shl. rewrite Z.rem_mod_nonneg by lia.
        rewrite (ToInt32_small (value mod 10)) by int32_range.
        rewrite ToUint32_small by int32_range.
        rewrite (Z.mod_small (4 * Z.of_nat nib)) by lia.
        rewrite Z.shiftl_mul_pow2, <- pow16_pow2 by lia.
        apply ToInt32_small. change (2 ^ 31) with 2147483648 in *. nia. }
      rewrite Hs. unfold js_or.
      rewrite (ToInt32_small bcd), (ToInt32_small (_ * _)).
      2:{ change (2 ^ 31) with 2147483648 in *. nia. }
      2:{ change (2 ^ 31) with 2147483648 in *.
          assert (16 ^ Z.of_nat nib <= 16 ^ 7) by (apply Z.pow_le_mono_r; lia).
          change (16 ^ 7) with 268435456 in *. lia. }
      rewrite pow16_pow2, lor_above by (rewrite <- ?pow16_pow2; lia).
      rewrite <- pow16_pow2 by lia.
      replace (Z.of_nat nib + 1) with (Z.of_nat (S nib)) by lia.
      rewrite IH; try lia.
      * rewrite digit_sum_shift. f_equal.
        rewrite Nat2Z.inj_succ. unfold Z.succ. lia.
      * rewrite Nat2Z.inj_succ, Z.pow_succ_r by lia. nia.
      * rewrite Nat2Z.inj_succ, Z.pow_succ_r by lia. nia.
Qed.

(** Below [80000000] the result of [int2BCD] is the packed BCD of the value,
    a non-negative integer. *)
Lemma int2BCD_packs (fuel : nat) (value length : Z) :
  (8 <= fuel)%nat -> 0 <= value < 80000000 ->
  length <= 4 -> value <= 10 ^ (2 * length) - 1 ->
  int2BCD fuel value length = Some (Ok (packedBCD 8 value))
  /\ 0 <= packedBCD 8 value.
Proof.
  intros Hfuel Hvalue Hlen Hfit. split.
  - unfold int2BCD.
    destruct (Z.gtb_spec length 4) as [|_]; [lia|].
    rewrite (Z.mul_comm length 2).
    destruct (Z.gtb_spec value (10 ^ (2 * length) - 1)) as [|_]; [lia|].
    change (int2BCD_loop fuel value 0 0)
      with (int2BCD_loop fuel value 0 (Z.of_nat 0)).
    rewrite (int2BCD_loop_packs 8 fuel value 0 0); trivial.
    + change (10 ^ Z.of_nat 8) with 100000000. lia.
    + cbn. lia.
    + cbn. lia.
  - apply (positional_nonneg 10 16 ltac:(lia) 8 value 0). lia.
Qed.

(** C7.  On a non-negative value, [int2BCD(value, length)] throws exactly
    when [length > 4] or [value > 10 ^ (2 * length) - 1], and returns
    otherwise (fuel for eight turns of its loop is enough);
    [int2BCD(1234, 2) = 0x1234], [int2BCD(100, 1)] throws and
    [int2BCD(0, 1) = 0]. *)
Theorem int2BCD_fails_iff (fuel : nat) (value length : Z) :
  (8 <= fuel)%nat -> 0 <= value ->
  ((exists e, int2BCD fuel value length = Some (Throw e))
   <-> (length > 4 \/ value > 10 ^ (2 * length) - 1))
  /\ (~ (length > 4 \/ value > 10 ^ (2 * length) - 1) ->
      exists bcd, int2BCD fuel value length = Some (Ok bcd))
  /\ int2BCD fuel 1234 2 = Some (Ok 0x1234)
  /\ int2BCD fuel 100 1 = Some (Throw (CannotFit 100 1))
  /\ int2BCD fuel 0 1 = Some (Ok 0).
Proof.
  intros Hfuel Hvalue.
  assert (Hreturns : ~ (length > 4 \/ value > 10 ^ (2 * length) - 1) ->
                     exists bcd, int2BCD fuel value length = Some (Ok bcd)).
  { intros Hin. unfold int2BCD.
    destruct (Z.gtb_spec length 4) as [|Hlen]; [lia|].
    rewrite (Z.mul_comm length 2).
    destruct (Z.gtb_spec value (10 ^ (2 * length) - 1)) as [|Hfit]; [lia|].
    assert (Hpow : 10 ^ (2 * length) <= 10 ^ 8).
    { destruct (Z.lt_ge_cases (2 * length) 0) as [Hneg|Hnn].
      - rewrite Z.pow_neg_r by assumption. cbv. congruence.
      - apply Z.pow_le_mono_r; lia. }
    destruct (int2BCD_loop_terminates 8 fuel value 0 0) as [r Hr]; trivial.
    + change (10 ^ Z.of_nat 8) with (10 ^ 8). lia.
    + exists r. now rewrite Hr. }
  split; [split|split; [|split; [|split]]].
  - intros [e He]. destruct (Z.gtb_spec length 4) as [|Hlen]; [lia|].
    destruct (Z.gtb_spec value (10 ^ (2 * length) - 1)) as [|Hfit]; [lia|].
    destruct Hreturns as [bcd Hbcd]; [lia|]. congruence.
  - intros Hout. unfold int2BCD.
    destruct (Z.gtb_spec length 4) as [|Hlen]; [eauto|].
    rewrite (Z.mul_comm length 2).
    destruct (Z.gtb_spec value (10 ^ (2 * length) - 1)) as [|Hfit]; [eauto|lia].
  - exact Hreturns.
  - refine (proj1 (int2BCD_packs fuel 1234 2 Hfuel _ _ _)); cbv; try split; congruence.
  - reflexivity.
  - refine (proj1 (int2BCD_packs fuel 0 1 Hfuel _ _ _)); cbv; try split; congruence.
Qed.

Lemma int2BCD_fails_iff_witness :
  (exists e, int2BCD 8 12345 2 = Some (Throw e)) /\ 12345 > 10 ^ (2 * 2) - 1.
Proof.
  split; [|reflexivity].
  apply (proj1 (int2BCD_fails_iff 8 12345 2 (le_n 8) ltac:(discriminate))).
  right. reflexivity.
Defined.

(** C9, at the input where the code leaves it.  For a valid value whose
    eighth digit is 8 or 9 the shift [nibbleValue << 28] reaches the sign bit
    of the 32-bit result: [int2BCD(80000000, 4)] is [-2147483648], not the
    packed BCD [0x80000000]. *)
Theorem int2BCD_sign_bit (fuel : nat) :
  int2BCD (8 + fuel) 80000000 4 = Some (Ok (-2147483648))
  /\ packedBCD 8 80000000 = 0x80000000.
Proof. split; [destruct fuel|]; reflexivity. Qed.

(** ** Bytes, length prefixes and strings *)

Lemma isByte_spec (b : Z) : isByte b = true <-> 0 <= b < 256.
Proof. unfold isByte. rewrite andb_true_iff, Z.leb_le, Z.ltb_lt. tauto. Qed.

Lemma ToUint8_byte (b : Z) : isByte b = true -> ToUint8 (Num b) = b.
Proof. rewrite isByte_spec. intros H. cbn. now apply Z.mod_small. Qed.

Lemma ToUint8_bytes (l : list Z) :
  forallb isByte l = true -> List.map ToUint8 (List.map Num l) = l.
Proof.
  induction l as [|b l IH]; cbn [forallb List.map]; [trivial|].
  rewrite andb_true_iff. intros [Hb Hl]. now rewrite IH, ToUint8_byte.
Qed.

Lemma fromCharCode_bytes (l : list Z) :
  forallb isByte l = true -> fromCharCode l = l.
Proof.
  unfold fromCharCode.
  induction l as [|b l IH]; cbn [forallb List.map]; [trivial|].
  rewrite andb_true_iff, isByte_spec. intros [Hb Hl]. rewrite IH by assumption.
  f_equal. unfold ToUint16. apply Z.mod_small. change (2 ^ 16) with 65536. lia.
Qed.

Lemma land_255 (z : Z) : Z.land z 255 = z mod 256.
Proof. change 255 with (Z.ones 8). now rewrite Z.land_ones by lia. Qed.

(** The two bytes of a length prefix below [2 ^ 16]. *)
Lemma prefix_hi (n : Z) : 0 <= n < 65536 -> js_and (js_sar n 8) 255 = n / 256.
Proof.
  intros Hn. unfold js_and, js_sar. change (ToUint32 8 mod 32) with 8.
  change (ToInt32 255) with 255.
  rewrite (ToInt32_small n) by int32_range.
  rewrite Z.shiftr_div_pow2 by lia. change (2 ^ 8) with 256.
  rewrite ToInt32_small by int32_range.
  rewrite land_255. apply Z.mod_small. Z.div_mod_to_equations. lia.
Qed.

Lemma prefix_lo (n : Z) : 0 <= n < 65536 -> js_and n 255 = n mod 256.
Proof.
  intros Hn. unfold js_and. change (ToInt32 255) with 255.
  rewrite (ToInt32_small n) by int32_range.
  apply land_255.
Qed.

(** The length read back from two bytes. *)
Lemma prefix_read (hi lo : Z) :
  0 <= hi < 256 -> 0 <= lo < 256 -> js_or (js_shl hi 8) lo = hi * 256 + lo.
Proof.
  intros Hhi Hlo. unfold js_or, js_shl. change (ToUint32 8 mod 32) with 8.
  rewrite (ToInt32_small hi) by int32_range.
  rewrite Z.shiftl_mul_pow2 by lia. change (2 ^ 8) with 256.
  rewrite !(ToInt32_small (hi * 256)) by int32_range.
  rewrite (ToInt32_small lo) by int32_range.
  rewrite Z.lor_comm. change 256 with (2 ^ 8).
  rewrite lor_above by (change (2 ^ 8) with 256; lia). lia.
Qed.

Lemma prefix_roundtrip (n : Z) :
  0 <= n < 65536 -> js_or (js_shl (n / 256) 8) (n mod 256) = n.
Proof. intros Hn. rewrite prefix_read; Z.div_mod_to_equations; lia. Qed.

Lemma splice_app {A : Type} (body rest : list A) :
  splice (Z.of_nat (List.length body)) (body ++ rest) = (body, rest).
Proof.
  unfold splice. destruct (Z.ltb_spec (Z.of_nat (List.length body)) 0) as [|_]; [lia|].
  rewrite length_app, Z.min_l by lia. rewrite Nat2Z.id.
  rewrite firstn_app, skipn_app, Nat.sub_diag, firstn_all, skipn_all.
  cbn [firstn skipn]. now rewrite app_nil_r.
Qed.

(** [value.substring(0, value.length - 1)] drops the last character. *)
Lemma substring_drop_last (s : jsstring) :
  substring s 0 (Z.of_nat (List.length s) - 1) = removelast s.
Proof.
  unfold substring. destruct s as [|c s]; [reflexivity|].
  set (len := Z.of_nat (List.length (c :: s))).
  assert (Hlen : len = Z.of_nat (List.length s) + 1)
    by (unfold len; cbn [List.length]; lia).
  rewrite (Z.max_l 0 0), (Z.min_l 0 len) by lia.
  rewrite (Z.max_l (len - 1) 0), (Z.min_l (len - 1) len) by lia.
  rewrite Z.min_l, Z.max_r by lia.
  change (Z.to_nat 0) with 0%nat. cbn [skipn].
  rewrite removelast_firstn_len. f_equal. cbn [List.length]. lia.
Qed.

Lemma substring_drop_terminator (s : jsstring) (c : Z) :
  substring (s ++ [c]) 0 (Z.of_nat (List.length (s ++ [c])) - 1) = s.
Proof. rewrite substring_drop_last. apply removelast_last. Qed.

(** ** Single steps of the two interpreters *)

Lemma format_walk_cons (st : FormatQuery.state) (char : ascii) (format : string) :
  FormatQuery.walk st (String char format)
  = (st' <- FormatQuery.step st char ;; FormatQuery.walk st' format).
Proof. reflexivity. Qed.

Lemma scan_walk_cons (L : Z) (st : ScanQuery.state) (char : ascii) (format : string) :
  ScanQuery.walk L st (String char format)
  = (st' <- ScanQuery.step L st char ;; ScanQuery.walk L st' format).
Proof. reflexivity. Qed.

Lemma format_percent (r : list number) (args : list value) :
  FormatQuery.step {| FormatQuery.result := r; FormatQuery.half := None;
                      FormatQuery.argStack := args;
                      FormatQuery.escaped := false |} "%"
  = Ok {| FormatQuery.result := r; FormatQuery.half := None;
          FormatQuery.argStack := args; FormatQuery.escaped := true |}.
Proof. reflexivity. Qed.

Lemma scan_percent (L : Z) (res : list value) (input : list Z) :
  ScanQuery.step L {| ScanQuery.result := res; ScanQuery.inputStack := input;
                      ScanQuery.half := None; ScanQuery.escaped := false |} "%"
  = Ok {| ScanQuery.result := res; ScanQuery.inputStack := input;
          ScanQuery.half := None; ScanQuery.escaped := true |}.
Proof. reflexivity. Qed.

(** The string tokens of [scanQuery] on a well-formed prefix: two bytes [hi]
    and [lo], then [hi * 256 + lo] characters. *)
Lemma scan_string_token (L : Z) (res : list value) (h : option ascii)
      (hi lo : Z) (body rest : list Z) (char : ascii) :
  char = "x"%char \/ char = "s"%char ->
  0 <= hi < 256 -> 0 <= lo < 256 ->
  Z.of_nat (List.length body) = hi * 256 + lo ->
  ScanQuery.step L {| ScanQuery.result := res;
                      ScanQuery.inputStack := hi :: lo :: body ++ rest;
                      ScanQuery.half := h; ScanQuery.escaped := true |} char
  = Ok {| ScanQuery.result :=
            res ++ [VString (if Ascii.eqb char "s"
                             then removelast (fromCharCode body)
                             else fromCharCode body)];
          ScanQuery.inputStack := rest;
          ScanQuery.half := h; ScanQuery.escaped := false |}.
Proof.
  intros Hchar Hhi Hlo Hlen.
  assert (Hstep :
    ScanQuery.step L {| ScanQuery.result := res;
                        ScanQuery.inputStack := hi :: lo :: body ++ rest;
                        ScanQuery.half := h; ScanQuery.escaped := true |} char
    = let '(kept, newInputStack) := splice (js_or (js_shl hi 8) lo) (body ++ rest) in
      Ok {| ScanQuery.result :=
              res ++ [VString (if Ascii.eqb char "s"
                               then substring (fromCharCode kept) 0
                                      (Z.of_nat (List.length (fromCharCode kept)) - 1)
                               else fromCharCode kept)];
            ScanQuery.inputStack := newInputStack;
            ScanQuery.half := h; ScanQuery.escaped := false |})
    by (destruct Hchar; subst char; reflexivity).
  rewrite Hstep, prefix_read, <- Hlen, splice_app by assumption.
  now rewrite substring_drop_last.
Qed.

(** The string tokens of [formatQuery]. *)
Lemma format_string_token (r : list number) (h : option ascii) (s : jsstring)
      (args : list value) (char : ascii) :
  char = "x"%char \/ char = "s"%char ->
  FormatQuery.step {| FormatQuery.result := r; FormatQuery.half := h;
                      FormatQuery.argStack := VString s :: args;
                      FormatQuery.escaped := true |} char
  = let stringLength :=
      if Ascii.eqb char "s" then Z.of_nat (List.length s) + 1
      else Z.of_nat (List.length s) in
    Ok {| FormatQuery.result :=
            r ++ [Num (js_and (js_sar stringLength 8) 255);
                  Num (js_and stringLength 255)]
              ++ List.map Num s ++ (if Ascii.eqb char "s" then [Num 0] else []);
          FormatQuery.half := h; FormatQuery.argStack := args;
          FormatQuery.escaped := false |}.
Proof. intros [->| ->]; reflexivity. Qed.

(** The bytes of a length-prefixed string, as [formatQuery] pushes them, are
    the bytes of the buffer. *)
Lemma string_bytes (n : Z) (s tail : list Z) :
  0 <= n < 65536 -> forallb isByte s = true -> forallb isByte tail = true ->
  List.map ToUint8 ([Num (js_and (js_sar n 8) 255); Num (js_and n 255)]
                    ++ List.map Num s ++ List.map Num tail)
  = [n / 256; n mod 256] ++ s ++ tail.
Proof.
  intros Hn Hs Htail. rewrite prefix_hi, prefix_lo by assumption.
  rewrite !map_app, !ToUint8_bytes by assumption.
  cbn [List.map app]. rewrite !ToUint8_byte; trivial;
    apply isByte_spec; Z.div_mod_to_equations; lia.
Qed.

(** C3.  The token [s] encodes a string of byte-sized characters as a
    two-byte big-endian length prefix holding the character count plus one,
    the character codes and a zero byte.  Decoding reads the two prefix
    bytes [hi] and [lo], takes exactly [hi * 256 + lo] bytes after them,
    drops the last of these characters and pushes the string; the bytes
    after them stay in the input, for the rest of the format to read, and
    are refused as remaining bytes when the format ends there.
    [formatQuery("%s", "hi")] is [[0x00, 0x03, 'h', 'i', 0x00]], which
    [scanQuery] decodes to [["hi"]]. *)
Theorem s_token (s : jsstring) :
  forallb isByte s = true ->
  Z.of_nat (List.length s) + 1 < 65536 ->
  formatQuery "%s" [VString s]
  = Ok ([(Z.of_nat (List.length s) + 1) / 256; (Z.of_nat (List.length s) + 1) mod 256]
        ++ s ++ [0])
  /\ (forall (hi lo : Z) (body : list Z),
        0 <= hi < 256 -> 0 <= lo < 256 ->
        Z.of_nat (List.length body) = hi * 256 + lo ->
        scanQuery (hi :: lo :: body) "%s"
        = Ok [VString (removelast (fromCharCode body))])
  /\ (forall (hi lo : Z) (body rest : list Z) (after : string) (L : Z),
        0 <= hi < 256 -> 0 <= lo < 256 ->
        Z.of_nat (List.length body) = hi * 256 + lo ->
        ScanQuery.walk L (ScanQuery.init (hi :: lo :: body ++ rest)) ("%s" ++ after)
        = ScanQuery.walk L
            {| ScanQuery.result := [VString (removelast (fromCharCode body))];
               ScanQuery.inputStack := rest;
               ScanQuery.half := None; ScanQuery.escaped := false |}
            after)
  /\ (forall (hi lo b : Z) (body rest : list Z),
        0 <= hi < 256 -> 0 <= lo < 256 ->
        Z.of_nat (List.length body) = hi * 256 + lo ->
        scanQuery (hi :: lo :: body ++ b :: rest) "%s"
        = Throw (BytesRemaining (S (List.length rest))))
  /\ (forall rest : list Z,
        scanQuery (([(Z.of_nat (List.length s) + 1) / 256;
                     (Z.of_nat (List.length s) + 1) mod 256] ++ s ++ [0]) ++ rest)
                  "%s%#"
        = Ok [VString s; VUint8Array (List.map (fun n => ToUint8 (Num n)) rest)])
  /\ scanQuery ([(Z.of_nat (List.length s) + 1) / 256;
                 (Z.of_nat (List.length s) + 1) mod 256] ++ s ++ [0]) "%s"
     = Ok [VString s]
  /\ formatQuery "%s" [VString (str "hi")] = Ok [0x00; 0x03; 104; 105; 0x00]
  /\ scanQuery [0x00; 0x03; 104; 105; 0x00] "%s" = Ok [VString (str "hi")].
Proof.
  intros Hs Hn.
  assert (Hwalk : forall (hi lo : Z) (body rest : list Z) (after : string) (L : Z),
             0 <= hi < 256 -> 0 <= lo < 256 ->
             Z.of_nat (List.length body) = hi * 256 + lo ->
             ScanQuery.walk L (ScanQuery.init (hi :: lo :: body ++ rest)) ("%s" ++ after)
             = ScanQuery.walk L
                 {| ScanQuery.result := [VString (removelast (fromCharCode body))];
                    ScanQuery.inputStack := rest;
                    ScanQuery.half := None; ScanQuery.escaped := false |}
                 after).
  { intros hi lo body rest after L Hhi Hlo Hlen. unfold ScanQuery.init.
    cbn [append]. rewrite scan_walk_cons, scan_percent. cbn [bind].
    rewrite scan_walk_cons.
    rewrite (scan_string_token _ _ _ hi lo body rest) by auto.
    reflexivity. }
  assert (Hdecode : forall (hi lo : Z) (body : list Z),
             0 <= hi < 256 -> 0 <= lo < 256 ->
             Z.of_nat (List.length body) = hi * 256 + lo ->
             scanQuery (hi :: lo :: body) "%s"
             = Ok [VString (removelast (fromCharCode body))]).
  { intros hi lo body Hhi Hlo Hlen. unfold scanQuery.
    rewrite <- (app_nil_r body) at 2.
    change "%s" with ("%s" ++ "")%string.
    rewrite Hwalk by assumption. reflexivity. }
  assert (Hpre : 0 <= Z.of_nat (List.length s) + 1 < 65536) by lia.
  assert (Hbody : Z.of_nat (List.length (s ++ [0]))
                  = (Z.of_nat (List.length s) + 1) / 256 * 256
                    + (Z.of_nat (List.length s) + 1) mod 256).
  { rewrite length_app. cbn [List.length]. Z.div_mod_to_equations; lia. }
  assert (Hchars : removelast (fromCharCode (s ++ [0])) = s).
  { rewrite fromCharCode_bytes, removelast_last; trivial.
    rewrite forallb_app, Hs. reflexivity. }
  split; [|split; [exact Hdecode|split; [exact Hwalk|split; [|split; [|split;
    [|split; reflexivity]]]]]].
  - unfold formatQuery, FormatQuery.init.
    rewrite format_walk_cons, format_percent. cbn [bind].
    rewrite format_walk_cons, format_string_token by auto.
    cbn [Ascii.eqb Bool.eqb bind FormatQuery.walk FormatQuery.result app].
    f_equal. apply (string_bytes _ s [0]); trivial.
  - intros hi lo b body rest Hhi Hlo Hlen. unfold scanQuery.
    change "%s" with ("%s" ++ "")%string.
    rewrite Hwalk by assumption. reflexivity.
  - intros rest. unfold scanQuery.
    change "%s%#" with ("%s" ++ "%#")%string.
    cbn [app]. rewrite Hwalk, Hchars; trivial; Z.div_mod_to_equations; lia.
  - cbn [app]. rewrite Hdecode, Hchars; trivial; Z.div_mod_to_equations; lia.
Qed.

Lemma s_token_witness :
  formatQuery "%s" [VString (str "netmd")]
  = Ok [0; 6; 110; 101; 116; 109; 100; 0]
  /\ scanQuery (0 :: 6 :: [110; 101; 116; 109; 100; 0] ++ 99 :: [98]) "%s"
     = Throw (BytesRemaining 2)
  /\ scanQuery ([0; 6; 110; 101; 116; 109; 100; 0] ++ [99; 98]) "%s%#"
     = Ok [VString (str "netmd"); VUint8Array [99; 98]].
Proof.
  destruct (s_token (str "netmd") eq_refl eq_refl)
    as (Hformat & _ & _ & Hmore & Hrest & _).
  split; [exact Hformat|split].
  - apply (Hmore 0 6 99 [110; 101; 116; 109; 100; 0] [98]);
      [split; [discriminate|reflexivity]..|reflexivity].
  - exact (Hrest [99; 98]).
Defined.

(** ** Literal bytes *)

(** C5, as amended.  On a buffer that starts with the byte [b],
    [scanQuery(buffer, "AA")] returns exactly when the buffer is the single
    byte [0xAA]; when [b] is not [0xAA] it throws the mismatch error with
    offset 0 (the length of the input, minus the length left after the byte
    was taken, minus one), expected value 170 and the byte found; when [b] is
    [0xAA] and more bytes follow it throws the error of the bytes that
    remain. *)
Theorem scanQuery_literal_AA (b : Z) (rest : list Z) :
  scanQuery (b :: rest) "AA"
  = (if b =? 0xAA then
       match rest with
       | [] => Ok []
       | _ :: _ => Throw (BytesRemaining (List.length rest))
       end
     else Throw (Mismatch 0 (Num 170) (Some b)))
  /\ ((exists values, scanQuery (b :: rest) "AA" = Ok values)
      <-> b = 0xAA /\ rest = []).
Proof.
  assert (Heq : scanQuery (b :: rest) "AA"
                = (if b =? 0xAA then
                     match rest with
                     | [] => Ok []
                     | _ :: _ => Throw (BytesRemaining (List.length rest))
                     end
                   else Throw (Mismatch 0 (Num 170) (Some b)))).
  { unfold scanQuery, ScanQuery.init.
    cbn [ScanQuery.walk ScanQuery.step ScanQuery.escaped ScanQuery.half Ascii.eqb
         Bool.eqb bind ScanQuery.inputStack ScanQuery.result shift].
    change (parseInt16 ["A"%char; "A"%char]) with (Num 170).
    cbn [ScanQuery.differs].
    destruct (Z.eqb_spec 170 b) as [<-|Hne].
    - cbn. destruct rest; reflexivity.
    - cbn [negb bind]. destruct (Z.eqb_spec b 170) as [|_]; [congruence|].
      do 3 f_equal. cbn [List.length]. lia. }
  split; [exact Heq|]. rewrite Heq. split.
  - intros [values Hv]. destruct (Z.eqb_spec b 170) as [->|]; [|discriminate].
    destruct rest; [auto|discriminate].
  - intros [-> ->]. now exists [].
Qed.

(** On the empty buffer the literal byte is compared with [undefined]; the
    offset computed is -1. *)
Lemma scanQuery_literal_AA_empty :
  scanQuery [] "AA" = Throw (Mismatch (-1) (Num 170) None).
Proof. reflexivity. Qed.

(** C5 as it is stated fails on a longer buffer: its first byte is [0xAA]
    and [scanQuery] throws, since a byte remains. *)
Lemma scanQuery_literal_AA_longer :
  nth 0 [0xAA; 0x00] 0 = 0xAA
  /\ scanQuery [0xAA; 0x00] "AA" = Throw (BytesRemaining 1).
Proof. split; reflexivity. Qed.

(** ** Fixed-width integers *)

Lemma FORMAT_TYPE_LEN_DICT_cases (char : ascii) (width : nat) :
  FORMAT_TYPE_LEN_DICT char = Some width ->
  (char = "b"%char /\ width = 1%nat) \/ (char = "w"%char /\ width = 2%nat)
  \/ (char = "d"%char /\ width = 4%nat) \/ (char = "q"%char /\ width = 8%nat).
Proof.
  unfold FORMAT_TYPE_LEN_DICT.
  destruct (Ascii.eqb_spec char "b"); [intros [= <-]; auto|].
  destruct (Ascii.eqb_spec char "w"); [intros [= <-]; auto|].
  destruct (Ascii.eqb_spec char "d"); [intros [= <-]; auto|].
  destruct (Ascii.eqb_spec char "q"); [intros [= <-]; auto 6|].
  discriminate.
Qed.

Lemma format_int_token (r : list number) (h : option ascii) (v : value)
      (args : list value) (char : ascii) (width : nat) (n : Z) :
  FORMAT_TYPE_LEN_DICT char = Some width -> JSBI_BigInt v = Ok n ->
  FormatQuery.step {| FormatQuery.result := r; FormatQuery.half := h;
                      FormatQuery.argStack := v :: args;
                      FormatQuery.escaped := true |} char
  = Ok {| FormatQuery.result := r ++ FormatQuery.pushBytes width n;
          FormatQuery.half := h; FormatQuery.argStack := args;
          FormatQuery.escaped := false |}.
Proof.
  intros Hdict Hv. unfold FormatQuery.step.
  cbn [FormatQuery.escaped FormatQuery.argStack shift FormatQuery.result FormatQuery.half].
  now rewrite Hdict, Hv.
Qed.

Lemma scan_int_token (L : Z) (res : list value) (h : option ascii)
      (input : list Z) (char : ascii) (width : nat) :
  FORMAT_TYPE_LEN_DICT char = Some width ->
  ScanQuery.step L {| ScanQuery.result := res; ScanQuery.inputStack := input;
                      ScanQuery.half := h; ScanQuery.escaped := true |} char
  = (r <- ScanQuery.readBytes width 0 input ;;
     Ok {| ScanQuery.result := res ++ [VBigInt (fst r)];
           ScanQuery.inputStack := snd r;
           ScanQuery.half := h; ScanQuery.escaped := false |}).
Proof.
  intros Hdict. unfold ScanQuery.step.
  cbn [ScanQuery.escaped ScanQuery.inputStack ScanQuery.result ScanQuery.half].
  rewrite Hdict.
  destruct (FORMAT_TYPE_LEN_DICT_cases _ _ Hdict) as [[-> _]|[[-> _]|[[-> _]|[-> _]]]];
    reflexivity.
Qed.

Lemma ToUint8_masked (z : Z) : ToUint8 (Num (Z.land z 255)) = Z.land z 255.
Proof.
  cbn [ToUint8]. rewrite land_255. change (2 ^ 8) with 256.
  apply Z.mod_mod. lia.
Qed.

(** The bytes [formatQuery] pushes for a width are the big-endian bytes. *)
Lemma pushBytes_bigEndian (width : nat) (n : Z) :
  List.map ToUint8 (FormatQuery.pushBytes width n) = bigEndianBytes width n.
Proof.
  unfold bigEndianBytes. induction width as [|width IH]; [reflexivity|].
  cbn [FormatQuery.pushBytes List.map seq]. rewrite ToUint8_masked, IH.
  f_equal.
  - do 2 f_equal. lia.
  - rewrite <- seq_shift, map_map. apply map_ext. intros i. do 3 f_equal. lia.
Qed.


(** The loop of [scanQuery] over [width] bytes is the shift-and-or. *)
Lemma readBytes_shiftOr (width : nat) :
  forall (acc : Z) (bytes rest : list Z),
    List.length bytes = width ->
    ScanQuery.readBytes width acc (bytes ++ rest)
    = Ok (fold_left Z.lor
            (List.map (fun i => Z.shiftl (nth i bytes 0)
                                         (8 * (Z.of_nat width - 1 - Z.of_nat i)))
                      (seq 0 width))
            acc,
          rest).
Proof.
  induction width as [|width IH]; intros acc bytes rest Hlen.
  - destruct bytes; [reflexivity|discriminate].
  - destruct bytes as [|b bytes]; [discriminate|].
    injection Hlen as Hlen.
    cbn [ScanQuery.readBytes app shift ScanQuery.shifted_value JSBI_BigInt bind].
    rewrite IH by assumption.
    cbn [seq List.map fold_left nth].
    rewrite <- seq_shift, map_map.
    replace (8 * (Z.of_nat (S width) - 1 - Z.of_nat 0)) with (Z.of_nat width * 8) by lia.
    do 3 f_equal. apply map_ext. intros i. cbn [nth]. f_equal. lia.
Qed.

(** One more byte above the low bytes of an integer. *)
Lemma lor_next_byte (n m : Z) :
  0 <= m ->
  Z.lor (Z.shiftl (Z.land (Z.shiftr n m) 255) m) (n mod 2 ^ m) = n mod 2 ^ (m + 8).
Proof.
  intros Hm. apply Z.bits_inj'. intros i Hi.
  rewrite Z.lor_spec.
  destruct (Z.lt_ge_cases i m) as [Hlow|Hhigh].
  - rewrite Z.shiftl_spec_low, !Z.mod_pow2_bits_low by lia. reflexivity.
  - rewrite Z.shiftl_spec, Z.land_spec, Z.shiftr_spec by lia.
    rewrite (Z.mod_pow2_bits_high n m) by lia.
    replace (i - m + m) with i by lia. rewrite orb_false_r.
    change 255 with (Z.ones 8).
    destruct (Z.lt_ge_cases i (m + 8)) as [Hin|Hout].
    + rewrite Z.ones_spec_low, Z.mod_pow2_bits_low by lia. apply andb_true_r.
    + rewrite Z.ones_spec_high, Z.mod_pow2_bits_high by lia. apply andb_false_r.
Qed.

(** Reading back the bytes pushed for [n] gives [n] modulo [2 ^ (8 * width)]. *)
Lemma readBytes_pushBytes (width : nat) :
  forall (acc n : Z) (rest : list Z),
    ScanQuery.readBytes width acc
      (List.map ToUint8 (FormatQuery.pushBytes width n) ++ rest)
    = Ok (Z.lor acc (n mod 2 ^ (8 * Z.of_nat width)), rest).
Proof.
  induction width as [|width IH]; intros acc n rest.
  - cbn. now rewrite Z.mod_1_r, Z.lor_0_r.
  - cbn [FormatQuery.pushBytes List.map app ScanQuery.readBytes shift
         ScanQuery.shifted_value JSBI_BigInt bind].
    rewrite ToUint8_masked, IH, <- Z.lor_assoc.
    replace (Z.of_nat width * 8) with (8 * Z.of_nat width) by lia.
    rewrite lor_next_byte by lia.
    now replace (8 * Z.of_nat (S width)) with (8 * Z.of_nat width + 8) by lia.
Qed.

Lemma formatQuery_int_token (char : ascii) (width : nat) (v : value) (n : Z) :
  FORMAT_TYPE_LEN_DICT char = Some width -> JSBI_BigInt v = Ok n ->
  formatQuery (tokenFormat char) [v] = Ok (bigEndianBytes width n).
Proof.
  intros Hdict Hv. unfold formatQuery, tokenFormat, FormatQuery.init.
  rewrite format_walk_cons, format_percent. cbn [bind].
  rewrite format_walk_cons, (format_int_token _ _ _ _ _ _ _ Hdict Hv).
  cbn [bind FormatQuery.walk FormatQuery.result app].
  now rewrite pushBytes_bigEndian.
Qed.





(** ** The walk over a format *)

Lemma bind_assoc {A B C : Type} (m : outcome A) (f : A -> outcome B) (g : B -> outcome C) :
  (y <- (x <- m ;; f x) ;; g y) = (x <- m ;; y <- f x ;; g y).
Proof. destruct m; reflexivity. Qed.

Lemma format_walk_app (f1 f2 : string) :
  forall st : FormatQuery.state,
    FormatQuery.walk st (f1 ++ f2)%string
    = (st' <- FormatQuery.walk st f1 ;; FormatQuery.walk st' f2).
Proof.
  induction f1 as [|c f1 IH]; intros st; [reflexivity|].
  cbn [append FormatQuery.walk]. rewrite bind_assoc.
  destruct (FormatQuery.step st c); cbn [bind]; auto.
Qed.

Lemma scan_walk_app (L : Z) (f1 f2 : string) :
  forall st : ScanQuery.state,
    ScanQuery.walk L st (f1 ++ f2)%string
    = (st' <- ScanQuery.walk L st f1 ;; ScanQuery.walk L st' f2).
Proof.
  induction f1 as [|c f1 IH]; intros st; [reflexivity|].
  cbn [append ScanQuery.walk]. rewrite bind_assoc.
  destruct (ScanQuery.step L st c); cbn [bind]; auto.
Qed.

(** A step that succeeds moves the control state as [pending] says. *)
Lemma format_step_pending (st st' : FormatQuery.state) (char : ascii) (format : string) :
  FormatQuery.step st char = Ok st' ->
  pending (FormatQuery.half st') (FormatQuery.escaped st') format
  = pending (FormatQuery.half st) (FormatQuery.escaped st) (String char format).
Proof.
  unfold FormatQuery.step. cbn [pending].
  destruct (FormatQuery.escaped st) eqn:Hesc.
  - destruct (shift (FormatQuery.argStack st)) as [shifted argStack'].
    destruct (FORMAT_TYPE_LEN_DICT char).
    + destruct (JSBI_BigInt _); cbn [bind]; intros [= <-]; reflexivity.
    + destruct (Ascii.eqb char "x" || Ascii.eqb char "s").
      * destruct (assertString _); cbn [bind]; intros [= <-]; reflexivity.
      * destruct (Ascii.eqb char "*"); [|discriminate].
        destruct shifted as [[]|]; intros [= <-]; reflexivity.
  - destruct (Ascii.eqb char "%").
    + destruct (FormatQuery.half st) eqn:Hhalf; [discriminate|].
      intros [= <-]. cbn. now rewrite ?Hhalf, ?Hesc.
    + destruct (Ascii.eqb char " "); [intros [= <-]; now rewrite Hesc|].
      destruct (FormatQuery.half st); intros [= <-]; cbn; now rewrite ?Hesc.
Qed.

Lemma scan_step_pending (L : Z) (st st' : ScanQuery.state) (char : ascii) (format : string) :
  ScanQuery.step L st char = Ok st' ->
  pending (ScanQuery.half st') (ScanQuery.escaped st') format
  = pending (ScanQuery.half st) (ScanQuery.escaped st) (String char format).
Proof.
  unfold ScanQuery.step. cbn [pending].
  destruct (ScanQuery.escaped st) eqn:Hesc.
  - destruct (Ascii.eqb char "?"); [intros [= <-]; reflexivity|].
    destruct (FORMAT_TYPE_LEN_DICT char).
    + destruct (ScanQuery.readBytes _ _ _); cbn [bind]; intros [= <-]; reflexivity.
    + destruct (Ascii.eqb char "s" || Ascii.eqb char "x").
      * destruct (shift (ScanQuery.inputStack st)) as [hi stack1].
        destruct (shift stack1) as [lo stack2].
        destruct (splice _ stack2). intros [= <-]; reflexivity.
      * destruct (Ascii.eqb char "*"); [intros [= <-]; reflexivity|].
        destruct (Ascii.eqb char "#"); [intros [= <-]; reflexivity|discriminate].
  - destruct (Ascii.eqb char "%").
    + destruct (ScanQuery.half st) eqn:Hhalf; [discriminate|].
      intros [= <-]. cbn. now rewrite ?Hhalf, ?Hesc.
    + destruct (Ascii.eqb char " "); [intros [= <-]; now rewrite Hesc|].
      destruct (ScanQuery.half st).
      * destruct (shift (ScanQuery.inputStack st)) as [inputValue inputStack'].
        destruct (ScanQuery.differs _ _); [discriminate|].
        intros [= <-]; cbn; now rewrite ?Hesc.
      * intros [= <-]; cbn; now rewrite ?Hesc.
Qed.

Lemma format_walk_pending (format : string) :
  forall st st' : FormatQuery.state,
    FormatQuery.walk st format = Ok st' ->
    pending (FormatQuery.half st) (FormatQuery.escaped st) format
    = Some (FormatQuery.half st', FormatQuery.escaped st').
Proof.
  induction format as [|c format IH]; intros st st'; cbn [FormatQuery.walk].
  - now intros [= <-].
  - destruct (FormatQuery.step st c) as [st1| |] eqn:Hstep; cbn [bind]; try discriminate.
    intros Hwalk. rewrite <- (IH _ _ Hwalk). symmetry. now apply format_step_pending.
Qed.

Lemma scan_walk_pending (L : Z) (format : string) :
  forall st st' : ScanQuery.state,
    ScanQuery.walk L st format = Ok st' ->
    pending (ScanQuery.half st) (ScanQuery.escaped st) format
    = Some (ScanQuery.half st', ScanQuery.escaped st').
Proof.
  induction format as [|c format IH]; intros st st'; cbn [ScanQuery.walk].
  - now intros [= <-].
  - destruct (ScanQuery.step L st c) as [st1| |] eqn:Hstep; cbn [bind]; try discriminate.
    intros Hwalk. rewrite <- (IH _ _ Hwalk). symmetry.
    exact (scan_step_pending L _ _ _ _ Hstep).
Qed.

(** While an escape marker waits for its character no half byte is pending. *)
Lemma pending_escaped (format : string) :
  forall (half half' : option ascii) (escaped : bool),
    (escaped = true -> half = None) ->
    pending half escaped format = Some (half', true) ->
    half' = None.
Proof.
  induction format as [|c format IH]; intros half half' escaped Hinv; cbn [pending].
  - intros [= <- ->]. auto.
  - destruct escaped.
    + apply IH. discriminate.
    + destruct (Ascii.eqb c "%"); [|destruct (Ascii.eqb c " ")].
      * destruct half; [discriminate|]. apply IH. trivial.
      * apply IH. discriminate.
      * destruct half; apply IH; discriminate.
Qed.

Lemma format_walk_escaped (format : string) (args : list value) (st : FormatQuery.state) :
  FormatQuery.walk (FormatQuery.init args) format = Ok st ->
  FormatQuery.escaped st = true -> FormatQuery.half st = None.
Proof.
  intros Hwalk Hesc. apply format_walk_pending in Hwalk. rewrite Hesc in Hwalk.
  apply (pending_escaped _ _ _ _ (fun _ => eq_refl) Hwalk).
Qed.

Lemma scan_walk_escaped (L : Z) (format : string) (query : list Z) (st : ScanQuery.state) :
  ScanQuery.walk L (ScanQuery.init query) format = Ok st ->
  ScanQuery.escaped st = true -> ScanQuery.half st = None.
Proof.
  intros Hwalk Hesc. apply scan_walk_pending in Hwalk. rewrite Hesc in Hwalk.
  apply (pending_escaped _ _ _ _ (fun _ => eq_refl) Hwalk).
Qed.

(** The escape flag after a step that succeeds: it is set by an escape
    marker read outside escaped mode, and by nothing else. *)
Lemma format_step_escaped (st st' : FormatQuery.state) (char : ascii) :
  FormatQuery.step st char = Ok st' ->
  FormatQuery.escaped st' = negb (FormatQuery.escaped st) && Ascii.eqb char "%".
Proof.
  intros Hstep. pose proof (format_step_pending _ _ _ EmptyString Hstep) as H.
  cbn [pending] in H.
  destruct (FormatQuery.escaped st); [now injection H|].
  destruct (Ascii.eqb char "%").
  - destruct (FormatQuery.half st); [discriminate|now injection H].
  - destruct (Ascii.eqb char " "); [now injection H|].
    destruct (FormatQuery.half st); now injection H.
Qed.

Lemma scan_step_escaped (L : Z) (st st' : ScanQuery.state) (char : ascii) :
  ScanQuery.step L st char = Ok st' ->
  ScanQuery.escaped st' = negb (ScanQuery.escaped st) && Ascii.eqb char "%".
Proof.
  intros Hstep. pose proof (scan_step_pending _ _ _ _ EmptyString Hstep) as H.
  cbn [pending] in H.
  destruct (ScanQuery.escaped st); [now injection H|].
  destruct (Ascii.eqb char "%").
  - destruct (ScanQuery.half st); [discriminate|now injection H].
  - destruct (Ascii.eqb char " "); [now injection H|].
    destruct (ScanQuery.half st); now injection H.
Qed.

Lemma format_step_unrecognized (st : FormatQuery.state) (char : ascii) :
  FormatQuery.escaped st = true -> formatTokenChar char = false ->
  FormatQuery.step st char = Throw (UnrecognizedFormatChar char).
Proof.
  unfold formatTokenChar, FormatQuery.step. intros -> Htoken.
  destruct (shift (FormatQuery.argStack st)) as [shifted argStack'].
  destruct (FORMAT_TYPE_LEN_DICT char); [discriminate|].
  apply orb_false_iff in Htoken as [Hxs Hstar]. now rewrite Hxs, Hstar.
Qed.

Lemma scan_step_unrecognized (L : Z) (st : ScanQuery.state) (char : ascii) :
  ScanQuery.escaped st = true -> scanTokenChar char = false ->
  ScanQuery.step L st char = Throw (UnrecognizedFormatChar char).
Proof.
  unfold scanTokenChar, ScanQuery.step. intros -> Htoken.
  apply orb_false_iff in Htoken as [-> Htoken].
  destruct (FORMAT_TYPE_LEN_DICT char); [discriminate|].
  apply orb_false_iff in Htoken as [Htoken Hhash].
  apply orb_false_iff in Htoken as [Hsx Hstar]. now rewrite Hsx, Hstar, Hhash.
Qed.

(** C6.  In [formatQuery] and in [scanQuery] alike: an escape marker read
    while the half of a literal byte is pending fails the assertion; after a
    step the escaped mode is on exactly when the step read an escape marker
    outside escaped mode, so that the escape applies to the next character
    and to no other; and an escaped character that is not a token character
    of the function throws the error of the unrecognized format char.
    [prefix] is the part of the format read before, without failure. *)
Theorem escape_marker (prefix rest : string) (char : ascii) :
  (forall (args : list value) (st : FormatQuery.state),
      FormatQuery.walk (FormatQuery.init args) prefix = Ok st ->
      FormatQuery.half st <> None ->
      formatQuery (prefix ++ String "%" rest) args = Throw AssertHalfNull)
  /\ (forall (query : list Z) (st : ScanQuery.state),
        ScanQuery.walk (Z.of_nat (List.length query)) (ScanQuery.init query) prefix = Ok st ->
        ScanQuery.half st <> None ->
        scanQuery query (prefix ++ String "%" rest) = Throw AssertHalfNull)
  /\ (forall st st' : FormatQuery.state,
        FormatQuery.step st char = Ok st' ->
        FormatQuery.escaped st' = negb (FormatQuery.escaped st) && Ascii.eqb char "%")
  /\ (forall (L : Z) (st st' : ScanQuery.state),
        ScanQuery.step L st char = Ok st' ->
        ScanQuery.escaped st' = negb (ScanQuery.escaped st) && Ascii.eqb char "%")
  /\ (forall (args : list value) (st : FormatQuery.state),
        FormatQuery.walk (FormatQuery.init args) prefix = Ok st ->
        FormatQuery.escaped st = true ->
        formatTokenChar char = false ->
        formatQuery (prefix ++ String char rest) args
        = Throw (UnrecognizedFormatChar char))
  /\ (forall (query : list Z) (st : ScanQuery.state),
        ScanQuery.walk (Z.of_nat (List.length query)) (ScanQuery.init query) prefix = Ok st ->
        ScanQuery.escaped st = true ->
        scanTokenChar char = false ->
        scanQuery query (prefix ++ String char rest)
        = Throw (UnrecognizedFormatChar char)).
Proof.
  split; [|split; [|split; [|split; [|split]]]].
  - intros args st Hwalk Hhalf. unfold formatQuery.
    rewrite format_walk_app, Hwalk. cbn [bind FormatQuery.walk].
    assert (Hesc : FormatQuery.escaped st = false).
    { destruct (FormatQuery.escaped st) eqn:Hesc; trivial.
      now rewrite (format_walk_escaped _ _ _ Hwalk Hesc) in Hhalf. }
    unfold FormatQuery.step. rewrite Hesc. cbn [Ascii.eqb Bool.eqb].
    now destruct (FormatQuery.half st).
  - intros query st Hwalk Hhalf. unfold scanQuery.
    rewrite scan_walk_app, Hwalk. cbn [bind ScanQuery.walk].
    assert (Hesc : ScanQuery.escaped st = false).
    { destruct (ScanQuery.escaped st) eqn:Hesc; trivial.
      now rewrite (scan_walk_escaped _ _ _ _ Hwalk Hesc) in Hhalf. }
    unfold ScanQuery.step. rewrite Hesc. cbn [Ascii.eqb Bool.eqb].
    now destruct (ScanQuery.half st).
  - intros st st'. apply format_step_escaped.
  - intros L st st'. apply scan_step_escaped.
  - intros args st Hwalk Hesc Htoken. unfold formatQuery.
    rewrite format_walk_app, Hwalk. cbn [bind FormatQuery.walk].
    now rewrite format_step_unrecognized.
  - intros query st Hwalk Hesc Htoken. unfold scanQuery.
    rewrite scan_walk_app, Hwalk. cbn [bind ScanQuery.walk].
    now rewrite scan_step_unrecognized.
Qed.

Lemma escape_marker_witness :
  formatQuery "0%b" [VNumber 1] = Throw AssertHalfNull
  /\ scanQuery [0x12; 0x34] "12 %z34" = Throw (UnrecognizedFormatChar "z").
Proof.
  split.
  - apply (proj1 (escape_marker "0" "b" "z") [VNumber 1]
                 {| FormatQuery.result := []; FormatQuery.half := Some "0"%char;
                    FormatQuery.argStack := [VNumber 1];
                    FormatQuery.escaped := false |});
      [reflexivity|discriminate].
  - apply (proj2 (proj2 (proj2 (proj2 (proj2 (escape_marker "12 %" "34" "z")))))
                 [0x12; 0x34]
                 {| ScanQuery.result := []; ScanQuery.inputStack := [0x34];
                    ScanQuery.half := None; ScanQuery.escaped := true |});
      reflexivity.
Defined.

(** ** A half literal byte at the end of the format *)

(** C10.  When a format, read to its end, leaves nothing pending (its
    literal digits are paired and no escape marker waits), one more
    character other than the escape marker and the space -- the first digit
    of a literal byte that has no second digit -- changes nothing:
    [formatQuery] returns the same bytes or fails the same way, and
    [scanQuery] returns the same values or fails the same way, no byte of
    the input being taken or compared for it. *)
Theorem trailing_half_digit (format : string) (char : ascii)
        (args : list value) (query : list Z) :
  pending None false format = Some (None, false) ->
  char <> "%"%char -> char <> " "%char ->
  formatQuery (format ++ String char EmptyString) args = formatQuery format args
  /\ scanQuery query (format ++ String char EmptyString) = scanQuery query format.
Proof.
  intros Hpending Hpercent Hspace.
  apply Ascii.eqb_neq in Hpercent, Hspace. split.
  - unfold formatQuery. rewrite format_walk_app.
    destruct (FormatQuery.walk (FormatQuery.init args) format) as [st| |] eqn:Hwalk;
      cbn [bind]; trivial.
    apply format_walk_pending in Hwalk. cbn [FormatQuery.init FormatQuery.half
      FormatQuery.escaped] in Hwalk. rewrite Hpending in Hwalk.
    injection Hwalk as Hhalf Hesc.
    cbn [FormatQuery.walk]. unfold FormatQuery.step.
    now rewrite <- Hesc, <- Hhalf, Hpercent, Hspace.
  - unfold scanQuery. rewrite scan_walk_app.
    destruct (ScanQuery.walk _ (ScanQuery.init query) format) as [st| |] eqn:Hwalk;
      cbn [bind]; trivial.
    apply scan_walk_pending in Hwalk. cbn [ScanQuery.init ScanQuery.half
      ScanQuery.escaped] in Hwalk. rewrite Hpending in Hwalk.
    injection Hwalk as Hhalf Hesc.
    cbn [ScanQuery.walk]. unfold ScanQuery.step.
    now rewrite <- Hesc, <- Hhalf, Hpercent, Hspace.
Qed.

Lemma trailing_half_digit_witness :
  formatQuery "18 %b 0" [VNumber 7] = Ok [0x18; 7]
  /\ scanQuery [0x18; 7] "18 %b 0" = Ok [VBigInt 7].
Proof.
  destruct (trailing_half_digit "18 %b " "0" [VNumber 7] [0x18; 7] eq_refl)
    as [Hformat Hscan]; [discriminate|discriminate|].
  split; [exact (eq_trans Hformat eq_refl)|exact (eq_trans Hscan eq_refl)].
Defined.

(** ** Exhaustion of the input *)

Lemma readBytes_short (width : nat) :
  forall (acc : Z) (input : list Z),
    (List.length input < width)%nat ->
    ScanQuery.readBytes width acc input = Throw BigIntTypeError.
Proof.
  induction width as [|width IH]; intros acc input Hlen; [lia|].
  destruct input as [|b input]; [reflexivity|].
  cbn [ScanQuery.readBytes shift ScanQuery.shifted_value JSBI_BigInt bind].
  apply IH. cbn [List.length] in Hlen. lia.
Qed.

Lemma removelast_app_last {A : Type} (l1 l2 : list A) :
  l2 <> [] -> removelast (l1 ++ l2) = l1 ++ removelast l2.
Proof. intros H. now apply removelast_app. Qed.

Lemma split_length {A : Type} (n m : nat) (l : list A) :
  List.length l = (n + m)%nat ->
  exists l1 l2, l = l1 ++ l2 /\ List.length l1 = n /\ List.length l2 = m.
Proof.
  intros Hlen. exists (firstn n l), (skipn n l).
  rewrite firstn_skipn, length_firstn, length_skipn. repeat split; lia.
Qed.

Lemma FORMAT_TYPE_LEN_DICT_pos (char : ascii) (width : nat) :
  FORMAT_TYPE_LEN_DICT char = Some width -> (0 < width)%nat.
Proof.
  intros H. destruct (FORMAT_TYPE_LEN_DICT_cases _ _ H)
    as [[_ ->]|[[_ ->]|[[_ ->]|[_ ->]]]]; lia.
Qed.

(** A format of literal bytes and fixed-width tokens, on an input that it
    decodes: it takes exactly its size in bytes, whatever follows them, and
    it fails for want of a byte when the last of them is removed. *)
Lemma fixed_walk (format : string) :
  forall (half : option ascii) (escaped : bool) (n : nat),
    fixedSize half escaped format = Some n ->
    forall (L : Z) (res : list value) (used extra : list Z) (st' : ScanQuery.state),
      List.length used = n ->
      ScanQuery.walk L {| ScanQuery.result := res; ScanQuery.inputStack := used ++ extra;
                          ScanQuery.half := half; ScanQuery.escaped := escaped |} format
      = Ok st' ->
      ScanQuery.inputStack st' = extra
      /\ (forall (L' : Z) (extra' : list Z),
            ScanQuery.walk L' {| ScanQuery.result := res;
                                 ScanQuery.inputStack := used ++ extra';
                                 ScanQuery.half := half; ScanQuery.escaped := escaped |}
                           format
            = Ok {| ScanQuery.result := ScanQuery.result st';
                    ScanQuery.inputStack := extra';
                    ScanQuery.half := ScanQuery.half st';
                    ScanQuery.escaped := ScanQuery.escaped st' |})
      /\ (used <> [] ->
          forall L' : Z,
          exists e,
            ScanQuery.walk L' {| ScanQuery.result := res;
                                 ScanQuery.inputStack := removelast used;
                                 ScanQuery.half := half; ScanQuery.escaped := escaped |}
                           format
            = Throw e /\ underflow e).
Proof.
  induction format as [|c format IH]; intros half escaped n Hsize L res used extra st' Hlen.
  - cbn in Hsize. injection Hsize as <-.
    destruct used; [|discriminate]. cbn [ScanQuery.walk app].
    intros [= <-]. cbn. repeat split; trivial. congruence.
  - rewrite scan_walk_cons. cbn [fixedSize] in Hsize.
    destruct escaped.
    + (* a token *)
      destruct (FORMAT_TYPE_LEN_DICT c) as [width|] eqn:Hdict; [|discriminate].
      destruct (fixedSize half false format) as [m|] eqn:Hm; [|discriminate].
      injection Hsize as <-.
      destruct (split_length _ _ _ Hlen) as (u1 & u2 & -> & Hu1 & Hu2).
      rewrite (scan_int_token _ _ _ _ _ _ Hdict), <- app_assoc.
      rewrite readBytes_shiftOr by assumption. cbn [bind fst snd].
      intros Hwalk.
      destruct (IH _ _ _ Hm _ _ _ _ _ Hu2 Hwalk) as (Hstack & Hextra & Hshort).
      split; [exact Hstack|split].
      * intros L' extra'. rewrite scan_walk_cons, (scan_int_token _ _ _ _ _ _ Hdict).
        rewrite <- app_assoc, readBytes_shiftOr by assumption. cbn [bind fst snd].
        apply Hextra.
      * intros _ L'. rewrite scan_walk_cons, (scan_int_token _ _ _ _ _ _ Hdict).
        destruct u2 as [|b u2].
        -- rewrite app_nil_r, readBytes_short.
           ++ exists BigIntTypeError. split; [reflexivity|now left].
           ++ pose proof (FORMAT_TYPE_LEN_DICT_pos _ _ Hdict) as Hpos.
              destruct u1 as [|b u1]; [cbn in Hu1; lia|].
              rewrite removelast_firstn_len, length_firstn. cbn [List.length] in *. lia.
        -- rewrite removelast_app_last by discriminate.
           rewrite readBytes_shiftOr by assumption. cbn [bind fst snd].
           apply Hshort. discriminate.
    + destruct (Ascii.eqb_spec c "%") as [->|Hpercent].
      * (* the escape marker *)
        destruct half; [discriminate|]. rewrite scan_percent. cbn [bind].
        intros Hwalk.
        destruct (IH _ _ _ Hsize _ _ _ _ _ Hlen Hwalk) as (Hstack & Hextra & Hshort).
        split; [exact Hstack|split].
        -- intros L' extra'. rewrite scan_walk_cons, scan_percent. apply Hextra.
        -- intros Hused L'. rewrite scan_walk_cons, scan_percent. now apply Hshort.
      * apply Ascii.eqb_neq in Hpercent.
        destruct (Ascii.eqb c " ") eqn:Hspace.
        -- (* a space *)
           assert (Hstep : forall L0 st0, ScanQuery.escaped st0 = false ->
                      ScanQuery.step L0 st0 c = Ok st0).
           { intros L0 st0 H0. unfold ScanQuery.step. now rewrite H0, Hpercent, Hspace. }
           rewrite Hstep by reflexivity. cbn [bind]. intros Hwalk.
           destruct (IH _ _ _ Hsize _ _ _ _ _ Hlen Hwalk) as (Hstack & Hextra & Hshort).
           split; [exact Hstack|split].
           ++ intros L' extra'. rewrite scan_walk_cons, Hstep by reflexivity. apply Hextra.
           ++ intros Hused L'. rewrite scan_walk_cons, Hstep by reflexivity.
              now apply Hshort.
        -- destruct half as [h|].
           ++ (* the second digit of a literal byte *)
              destruct (fixedSize None false format) as [m|] eqn:Hm; [|discriminate].
              injection Hsize as <-.
              destruct used as [|b used]; [discriminate|]. injection Hlen as Hlen.
              assert (Hstep : forall L0 input0,
                         ScanQuery.step L0 {| ScanQuery.result := res;
                                              ScanQuery.inputStack := b :: input0;
                                              ScanQuery.half := Some h;
                                              ScanQuery.escaped := false |} c
                         = if ScanQuery.differs (parseInt16 [h; c]) (Some b)
                           then Throw (Mismatch (L0 - Z.of_nat (List.length input0) - 1)
                                                (parseInt16 [h; c]) (Some b))
                           else Ok {| ScanQuery.result := res;
                                      ScanQuery.inputStack := input0;
                                      ScanQuery.half := None;
                                      ScanQuery.escaped := false |}).
              { intros L0 input0. unfold ScanQuery.step.
                cbn [ScanQuery.escaped ScanQuery.half ScanQuery.inputStack shift
                     ScanQuery.result].
                now rewrite Hpercent, Hspace. }
              cbn [app]. rewrite Hstep.
              destruct (ScanQuery.differs (parseInt16 [h; c]) (Some b)) eqn:Hdiff;
                [discriminate|].
              cbn [bind]. intros Hwalk.
              destruct (IH _ _ _ Hm _ _ _ _ _ Hlen Hwalk) as (Hstack & Hextra & Hshort).
              split; [exact Hstack|split].
              ** intros L' extra'. rewrite scan_walk_cons. cbn [app].
                 rewrite Hstep. apply Hextra.
              ** intros _ L'. rewrite scan_walk_cons.
                 destruct used as [|b' used].
                 --- cbn [removelast]. unfold ScanQuery.step.
                     cbn [ScanQuery.escaped ScanQuery.half ScanQuery.inputStack shift
                          ScanQuery.result].
                     rewrite Hpercent, Hspace.
                     replace (ScanQuery.differs (parseInt16 [h; c]) None) with true
                       by (now destruct (parseInt16 [h; c])).
                     cbn [bind]. eexists. split; [reflexivity|].
                     right. eauto.
                 --- change (removelast (b :: b' :: used))
                       with (b :: removelast (b' :: used)).
                     rewrite Hstep. apply Hshort. discriminate.
           ++ (* the first digit of a literal byte *)
              assert (Hstep : forall L0 input0,
                         ScanQuery.step L0 {| ScanQuery.result := res;
                                              ScanQuery.inputStack := input0;
                                              ScanQuery.half := None;
                                              ScanQuery.escaped := false |} c
                         = Ok {| ScanQuery.result := res;
                                 ScanQuery.inputStack := input0;
                                 ScanQuery.half := Some c;
                                 ScanQuery.escaped := false |}).
              { intros L0 input0. unfold ScanQuery.step.
                cbn [ScanQuery.escaped ScanQuery.half ScanQuery.inputStack
                     ScanQuery.result].
                now rewrite Hpercent, Hspace. }
              rewrite Hstep. cbn [bind]. intros Hwalk.
              destruct (IH _ _ _ Hsize _ _ _ _ _ Hlen Hwalk) as (Hstack & Hextra & Hshort).
              split; [exact Hstack|split].
              ** intros L' extra'. rewrite scan_walk_cons, Hstep. apply Hextra.
              ** intros Hused L'. rewrite scan_walk_cons, Hstep. now apply Hshort.
Qed.

(** A format of literal bytes and fixed-width tokens decodes no input
    shorter than its size. *)
Lemma fixed_walk_enough (format : string) :
  forall (half : option ascii) (escaped : bool) (n : nat),
    fixedSize half escaped format = Some n ->
    forall (L : Z) (res : list value) (input : list Z) (st' : ScanQuery.state),
      ScanQuery.walk L {| ScanQuery.result := res; ScanQuery.inputStack := input;
                          ScanQuery.half := half; ScanQuery.escaped := escaped |} format
      = Ok st' ->
      (n <= List.length input)%nat.
Proof.
  induction format as [|c format IH]; intros half escaped n Hsize L res input st'.
  - cbn in Hsize. injection Hsize as <-. lia.
  - rewrite scan_walk_cons. cbn [fixedSize] in Hsize.
    destruct escaped.
    + destruct (FORMAT_TYPE_LEN_DICT c) as [width|] eqn:Hdict; [|discriminate].
      destruct (fixedSize half false format) as [m|] eqn:Hm; [|discriminate].
      injection Hsize as <-.
      rewrite (scan_int_token _ _ _ _ _ _ Hdict).
      destruct (Nat.lt_ge_cases (List.length input) width) as [Hshort|Hlong].
      * rewrite readBytes_short by assumption. discriminate.
      * destruct (split_length width (List.length input - width) input)
          as (u1 & u2 & -> & Hu1 & Hu2); [lia|].
        rewrite readBytes_shiftOr by assumption. cbn [bind fst snd].
        intros Hwalk. apply IH with (1 := Hm) in Hwalk.
        rewrite length_app. lia.
    + unfold ScanQuery.step.
      cbn [ScanQuery.escaped ScanQuery.half ScanQuery.inputStack ScanQuery.result].
      destruct (Ascii.eqb c "%").
      * destruct half; [discriminate|]. cbn [bind]. now apply IH.
      * destruct (Ascii.eqb c " "); [cbn [bind]; now apply IH|].
        destruct half as [h|]; [|cbn [bind]; now apply IH].
        destruct (fixedSize None false format) as [m|] eqn:Hm; [|discriminate].
        injection Hsize as <-.
        destruct input as [|b input]; cbn [shift].
        -- replace (ScanQuery.differs (parseInt16 [h; c]) None) with true
             by (now destruct (parseInt16 [h; c])).
           discriminate.
        -- destruct (ScanQuery.differs _ _); [discriminate|]. cbn [bind].
           intros Hwalk. apply IH with (1 := Hm) in Hwalk. cbn [List.length]. lia.
Qed.




(** ** Round trip *)

Lemma pushBytes_Num (width : nat) (n : Z) :
  FormatQuery.pushBytes width n = List.map Num (bigEndianBytes width n).
Proof.
  unfold bigEndianBytes. induction width as [|width IH]; [reflexivity|].
  cbn [FormatQuery.pushBytes List.map seq]. rewrite IH. f_equal.
  - do 3 f_equal. lia.
  - rewrite <- seq_shift, !map_map. apply map_ext. intros i. do 4 f_equal. lia.
Qed.

Lemma bigEndianBytes_bytes (width : nat) (n : Z) :
  forallb isByte (bigEndianBytes width n) = true.
Proof.
  unfold bigEndianBytes. apply forallb_forall. intros b Hin.
  apply in_map_iff in Hin as (i & <- & _). apply isByte_spec.
  rewrite land_255. apply Z.mod_pos_bound. lia.
Qed.

Lemma readBytes_bigEndian (width : nat) (n : Z) (rest : list Z) :
  0 <= n < 2 ^ (8 * Z.of_nat width) ->
  ScanQuery.readBytes width 0 (bigEndianBytes width n ++ rest) = Ok (n, rest).
Proof.
  intros Hn. rewrite <- pushBytes_bigEndian, readBytes_pushBytes.
  now rewrite Z.lor_0_l, Z.mod_small.
Qed.

(** What [tokenArg] accepts. *)
Lemma tokenArg_cases (char : ascii) (v : value) :
  tokenArg char v = true ->
  (exists width n,
      FORMAT_TYPE_LEN_DICT char = Some width
      /\ (v = VNumber n \/ v = VBigInt n) /\ 0 <= n < 2 ^ (8 * Z.of_nat width))
  \/ (exists s,
         FORMAT_TYPE_LEN_DICT char = None /\ v = VString s /\ forallb isByte s = true
         /\ ((char = "x"%char /\ Z.of_nat (List.length s) < 65536)
             \/ (char = "s"%char /\ Z.of_nat (List.length s) + 1 < 65536)
             \/ char = "*"%char)).
Proof.
  unfold tokenArg. destruct (FORMAT_TYPE_LEN_DICT char) as [width|].
  - destruct v as [|n|n|s|bytes]; try discriminate;
      rewrite andb_true_iff, Z.leb_le, Z.ltb_lt; intros H;
      left; exists width, n; auto.
  - destruct v as [|n|n|s|bytes]; try discriminate.
    rewrite andb_true_iff. intros [Hs Hchar]. right. exists s.
    repeat split; trivial.
    destruct (Ascii.eqb_spec char "x") as [->|_]; [left; split; [reflexivity|lia]|].
    destruct (Ascii.eqb_spec char "s") as [->|_]; [right; left; split; [reflexivity|lia]|].
    right; right. now apply Ascii.eqb_eq.
Qed.

Lemma Num_prefix (n : Z) :
  0 <= n < 65536 ->
  [Num (js_and (js_sar n 8) 255); Num (js_and n 255)]
  = List.map Num [n / 256; n mod 256].
Proof. intros Hn. now rewrite prefix_hi, prefix_lo. Qed.

Lemma isByte_prefix (n : Z) :
  0 <= n < 65536 -> forallb isByte [n / 256; n mod 256] = true.
Proof.
  intros Hn. cbn [forallb]. rewrite !andb_true_iff, !isByte_spec.
  repeat split; Z.div_mod_to_equations; lia.
Qed.

(** The two walks over a typed format: [formatQuery] appends an encoding of
    the arguments, which [scanQuery] reads back to the arguments. *)
Lemma roundtrip_walk (format : string) :
  forall (escaped : bool) (args : list value),
    typedFormat escaped format args = true ->
    exists enc : list Z,
      forallb isByte enc = true
      /\ (args = [] -> enc = [])
      /\ (forall r : list number,
             FormatQuery.walk {| FormatQuery.result := r; FormatQuery.half := None;
                                 FormatQuery.argStack := args;
                                 FormatQuery.escaped := escaped |} format
             = Ok {| FormatQuery.result := r ++ List.map Num enc;
                     FormatQuery.half := None; FormatQuery.argStack := [];
                     FormatQuery.escaped := false |})
      /\ (forall (L : Z) (res : list value),
             ScanQuery.walk L {| ScanQuery.result := res; ScanQuery.inputStack := enc;
                                 ScanQuery.half := None;
                                 ScanQuery.escaped := escaped |} format
             = Ok {| ScanQuery.result := res ++ List.map decodedArg args;
                     ScanQuery.inputStack := []; ScanQuery.half := None;
                     ScanQuery.escaped := false |}).
Proof.
  induction format as [|c format IH]; intros escaped args; cbn [typedFormat].
  - rewrite andb_true_iff. intros [Hesc Hargs].
    destruct escaped; [discriminate|]. destruct args; [|discriminate].
    exists []. cbn [List.map FormatQuery.walk ScanQuery.walk].
    repeat split; intros; now rewrite app_nil_r.
  - destruct escaped.
    + destruct args as [|v args]; [discriminate|].
      rewrite !andb_true_iff. intros [[Harg Hstar] Hrest].
      destruct (IH _ _ Hrest) as (enc & Hbytes & Hnil & Hformat & Hscan).
      destruct (tokenArg_cases _ _ Harg)
        as [(width & n & Hdict & Hv & Hn)
           |(s & Hdict & -> & Hs & [[-> Hlen]|[[-> Hlen]| ->]])].
      * (* an integer *)
        exists (bigEndianBytes width n ++ enc). split; [|split; [discriminate|split]].
        -- now rewrite forallb_app, bigEndianBytes_bytes.
        -- intros r. rewrite format_walk_cons.
           rewrite (format_int_token _ _ _ _ _ _ n Hdict)
             by (destruct Hv; subst v; reflexivity).
           cbn [bind]. rewrite Hformat, pushBytes_Num, map_app, app_assoc. reflexivity.
        -- intros L res. rewrite scan_walk_cons, (scan_int_token _ _ _ _ _ _ Hdict).
           rewrite readBytes_bigEndian by assumption. cbn [bind fst snd].
           rewrite Hscan, <- app_assoc.
           destruct Hv; subst v; reflexivity.
      * (* a string, [x] *)
        assert (Hpre : 0 <= Z.of_nat (List.length s) < 65536) by lia.
        exists ([Z.of_nat (List.length s) / 256; Z.of_nat (List.length s) mod 256]
                  ++ s ++ enc).
        split; [|split; [discriminate|split]].
        -- now rewrite !forallb_app, isByte_prefix, Hs.
        -- intros r. rewrite format_walk_cons, format_string_token by auto.
           cbn [Ascii.eqb Bool.eqb bind]. rewrite Hformat, Num_prefix by assumption.
           rewrite !map_app, app_nil_r, <- !app_assoc. reflexivity.
        -- intros L res. rewrite scan_walk_cons. cbn [app].
           rewrite (scan_string_token _ _ _ _ _ s enc) by (auto; Z.div_mod_to_equations; lia).
           cbn [Ascii.eqb Bool.eqb bind].
           rewrite Hscan, fromCharCode_bytes, <- app_assoc by assumption. reflexivity.
      * (* a string, [s] *)
        assert (Hpre : 0 <= Z.of_nat (List.length s) + 1 < 65536) by lia.
        exists ([(Z.of_nat (List.length s) + 1) / 256;
                 (Z.of_nat (List.length s) + 1) mod 256] ++ (s ++ [0]) ++ enc).
        split; [|split; [discriminate|split]].
        -- rewrite !forallb_app, isByte_prefix, Hs by assumption. exact Hbytes.
        -- intros r. rewrite format_walk_cons, format_string_token by auto.
           cbn [Ascii.eqb Bool.eqb bind]. rewrite Hformat, Num_prefix by assumption.
           rewrite !map_app, <- !app_assoc. reflexivity.
        -- intros L res. rewrite scan_walk_cons. cbn [app].
           rewrite (scan_string_token _ _ _ _ _ (s ++ [0]) enc).
           ++ cbn [Ascii.eqb Bool.eqb bind].
              rewrite Hscan, fromCharCode_bytes, removelast_last, <- app_assoc;
                [reflexivity|].
              now rewrite forallb_app, Hs.
           ++ auto.
           ++ Z.div_mod_to_equations; lia.
           ++ Z.div_mod_to_equations; lia.
           ++ rewrite length_app. cbn [List.length]. Z.div_mod_to_equations; lia.
      * (* the rest, as a string *)
        cbn [Ascii.eqb Bool.eqb] in Hstar. destruct args; [|discriminate].
        rewrite (Hnil eq_refl) in *.
        exists s. split; [exact Hs|split; [discriminate|split]].
        -- intros r. rewrite format_walk_cons. cbn [FormatQuery.step FormatQuery.escaped
             FormatQuery.argStack shift FORMAT_TYPE_LEN_DICT Ascii.eqb Bool.eqb orb
             FormatQuery.result FormatQuery.half bind stringToCharCodeArray].
           rewrite Hformat. cbn [List.map]. now rewrite app_nil_r.
        -- intros L res. rewrite scan_walk_cons. cbn [ScanQuery.step ScanQuery.escaped
             ScanQuery.inputStack FORMAT_TYPE_LEN_DICT Ascii.eqb Bool.eqb orb
             ScanQuery.result ScanQuery.half bind].
           rewrite Hscan, fromCharCode_bytes, <- app_assoc by assumption. reflexivity.
    + destruct (Ascii.eqb_spec c "%") as [->|Hpercent].
      * intros Hrest.
        destruct (IH _ _ Hrest) as (enc & Hbytes & Hnil & Hformat & Hscan).
        exists enc. split; [exact Hbytes|split; [exact Hnil|split]].
        -- intros r. rewrite format_walk_cons, format_percent. apply Hformat.
        -- intros L res. rewrite scan_walk_cons, scan_percent. apply Hscan.
      * apply Ascii.eqb_neq in Hpercent.
        destruct (Ascii.eqb c " ") eqn:Hspace; [|discriminate].
        intros Hrest.
        destruct (IH _ _ Hrest) as (enc & Hbytes & Hnil & Hformat & Hscan).
        exists enc. split; [exact Hbytes|split; [exact Hnil|split]].
        -- intros r. rewrite format_walk_cons. unfold FormatQuery.step.
           cbn [FormatQuery.escaped]. rewrite Hpercent, Hspace. apply Hformat.
        -- intros L res. rewrite scan_walk_cons. unfold ScanQuery.step.
           cbn [ScanQuery.escaped]. rewrite Hpercent, Hspace. apply Hscan.
Qed.

(** C1, as amended.  For a format made of typed tokens and spaces only, in
    which the token [*] is the last token if it occurs, and for arguments,
    one per token, that suit the tokens (an integer from 0 to
    [2 ^ (8 * width) - 1] for [b], [w], [d], [q]; a string of characters of
    codes 0 to 255 for [x], [s] and [*], its length prefix fitting in two
    bytes for [x] and [s]), [formatQuery] returns a buffer and [scanQuery]
    decodes that buffer, with the same format, to the arguments, an integer
    coming back as a JSBI integer. *)
Theorem scanQuery_formatQuery (format : string) (args : list value) :
  typedFormat false format args = true ->
  exists bytes : list Z,
    formatQuery format args = Ok bytes
    /\ scanQuery bytes format = Ok (List.map decodedArg args).
Proof.
  intros Htyped.
  destruct (roundtrip_walk _ _ _ Htyped) as (enc & Hbytes & _ & Hformat & Hscan).
  exists enc. split.
  - unfold formatQuery, FormatQuery.init. rewrite Hformat. cbn [bind FormatQuery.result app].
    now rewrite ToUint8_bytes.
  - unfold scanQuery, ScanQuery.init. rewrite Hscan. reflexivity.
Qed.

Lemma scanQuery_formatQuery_witness :
  exists bytes : list Z,
    formatQuery "%b %w%q %x%s %*"
                [VNumber 0xFF; VBigInt 0x1234; VBigInt (2 ^ 64 - 1);
                 VString (str "ab"); VString (str "cd"); VString (str "rest")]
    = Ok bytes
    /\ scanQuery bytes "%b %w%q %x%s %*"
       = Ok [VBigInt 0xFF; VBigInt 0x1234; VBigInt (2 ^ 64 - 1);
             VString (str "ab"); VString (str "cd"); VString (str "rest")].
Proof.
  exact (scanQuery_formatQuery
           "%b %w%q %x%s %*"
           [VNumber 0xFF; VBigInt 0x1234; VBigInt (2 ^ 64 - 1);
            VString (str "ab"); VString (str "cd"); VString (str "rest")]
           eq_refl).
Defined.

(** What [tokenArg] asks of an argument is needed: an integer beyond the
    width, a character beyond 255 and a string of 65536 characters are
    encoded without an error and decoded to something else. *)
Lemma tokenArg_needed :
  (formatQuery "%b" [VNumber 256] = Ok [0]
   /\ scanQuery [0] "%b" = Ok [VBigInt 0])
  /\ (formatQuery "%x" [VString [0x141]] = Ok [0; 1; 0x41]
      /\ scanQuery [0; 1; 0x41] "%x" = Ok [VString [0x41]])
  /\ match bytes <- formatQuery "%x" [VString (repeat 0x41 (Z.to_nat 65536))] ;;
           scanQuery bytes "%x"
     with
     | Throw (BytesRemaining n) => Z.of_nat n = 65536
     | _ => False
     end.
Proof.
  split; [split; reflexivity|split; [split; reflexivity|]].
  vm_compute. reflexivity.
Qed.

(** C1 as it is stated fails when a token follows [*]: the arguments ["A"]
    and 5 suit the tokens of ["%*%b"] and are encoded to two bytes, which
    [scanQuery] does not decode: [*] takes both bytes and [b] finds none. *)
Lemma scanQuery_formatQuery_star :
  formatQuery "%*%b" [VString (str "A"); VNumber 5] = Ok [65; 5]
  /\ scanQuery [65; 5] "%*%b" = Throw BigIntTypeError.
Proof. split; reflexivity. Qed.

(** * Properties beyond the claims *)

(** ** The two BCD conversions are inverse of each other *)

Section PositionalInverse.

Variables a b : Z.
Hypothesis a_pos : 0 < a.
Hypothesis b_pos : 0 < b.

Lemma positional_scale (x pos : Z) (l : list nat) :
  0 <= pos ->
  fold_right Z.add 0 (List.map (positionalTerm a b x (pos + 1)) l)
  = b * fold_right Z.add 0 (List.map (positionalTerm a b x pos) l).
Proof.
  intros Hpos. induction l as [|p l IH]; cbn [List.map fold_right]; [lia|].
  rewrite IH. unfold positionalTerm.
  replace (pos + 1 + Z.of_nat p) with (Z.succ (pos + Z.of_nat p)) by lia.
  rewrite Z.pow_succ_r by lia. ring.
Qed.

Lemma positionalSum_succ (n : nat) (x : Z) :
  positionalSum a b (S n) x = x mod a + b * positionalSum a b n (x / a).
Proof.
  unfold positionalSum. rewrite (positional_shift a b a_pos).
  rewrite (positional_scale (x / a) 0) by lia.
  now rewrite Z.pow_0_r, Z.mul_1_r.
Qed.

(** When the digits count for less than [b], so does the sum for less than
    [b ^ n]. *)
Lemma positionalSum_bound (n : nat) :
  forall x : Z,
    (forall p : nat, (p < n)%nat -> (x / a ^ Z.of_nat p) mod a < b) ->
    0 <= positionalSum a b n x < b ^ Z.of_nat n.
Proof.
  induction n as [|n IH]; intros x Hdigits.
  - cbn. lia.
  - rewrite positionalSum_succ, Nat2Z.inj_succ, Z.pow_succ_r by lia.
    assert (Hd : 0 <= x mod a < b).
    { split; [apply Z.mod_pos_bound; lia|].
      specialize (Hdigits 0%nat ltac:(lia)). cbn [Z.of_nat] in Hdigits.
      now rewrite Z.pow_0_r, Z.div_1_r in Hdigits. }
    assert (Hrec : 0 <= positionalSum a b n (x / a) < b ^ Z.of_nat n).
    { apply IH. intros p Hp. specialize (Hdigits (S p) ltac:(lia)).
      rewrite Nat2Z.inj_succ, Z.pow_succ_r, <- Z.div_div in Hdigits by lia.
      exact Hdigits. }
    nia.
Qed.

End PositionalInverse.

(** Reading in base [b] the sum written from base [a] gives the number
    back, when every digit is a digit of base [b] too. *)
Lemma positional_inverse (a b : Z) (n : nat) :
  0 < a -> 0 < b ->
  forall x : Z,
    (forall p : nat, (p < n)%nat -> (x / a ^ Z.of_nat p) mod a < b) ->
    positionalSum b a n (positionalSum a b n x) = x mod a ^ Z.of_nat n.
Proof.
  intros Ha Hb. induction n as [|n IH]; intros x Hdigits.
  - cbn. now rewrite Z.mod_1_r.
  - assert (Hd : 0 <= x mod a < b).
    { split; [apply Z.mod_pos_bound; lia|].
      specialize (Hdigits 0%nat ltac:(lia)). cbn [Z.of_nat] in Hdigits.
      now rewrite Z.pow_0_r, Z.div_1_r in Hdigits. }
    assert (Hrest : forall p : nat, (p < n)%nat ->
                      (x / a / a ^ Z.of_nat p) mod a < b).
    { intros p Hp. specialize (Hdigits (S p) ltac:(lia)).
      rewrite Nat2Z.inj_succ, Z.pow_succ_r, <- Z.div_div in Hdigits by lia.
      exact Hdigits. }
    rewrite (positionalSum_succ a b Ha n x), (positionalSum_succ b a Hb).
    set (q := positionalSum a b n (x / a)).
    replace ((x mod a + b * q) mod b) with (x mod a)
      by (apply Z.mod_unique with q; lia).
    replace ((x mod a + b * q) / b) with q
      by (apply Z.div_unique with (x mod a); lia).
    unfold q. rewrite (IH _ Hrest).
    rewrite Nat2Z.inj_succ, Z.pow_succ_r by lia.
    assert (0 < a ^ Z.of_nat n) by (apply Z.pow_pos_nonneg; lia).
    now rewrite Z.rem_mul_r by lia.
Qed.

Lemma ToUint32_ToInt32 (z : Z) : ToUint32 (ToInt32 z) = z mod 2 ^ 32.
Proof. unfold ToUint32, ToInt32. int32_range. Qed.

(** Or-ing a digit into the eighth nibble, the sign bit included. *)
Lemma lor_top_nibble (bcd d : Z) :
  0 <= bcd < 2 ^ 28 -> 0 <= d < 16 ->
  Z.lor bcd (ToInt32 (d * 2 ^ 28)) = ToInt32 (bcd + d * 2 ^ 28).
Proof.
  intros Hbcd Hd. change (2 ^ 28) with 268435456 in *.
  destruct (Z.lt_ge_cases d 8) as [Hlow|Hhigh].
  - rewrite !ToInt32_small by int32_range.
    change 268435456 with (2 ^ 28). apply lor_above; [lia|].
    change (2 ^ 28) with 268435456. lia.
  - replace (ToInt32 (d * 268435456)) with ((d - 16) * 2 ^ 28)
      by (unfold ToInt32; int32_range).
    rewrite lor_above by (change (2 ^ 28) with 268435456; lia).
    unfold ToInt32. change (2 ^ 28) with 268435456. int32_range.
Qed.

(** The loop of [int2BCD] on every value of at most eight digits: the result
    is the 32-bit integer whose bits are the packed BCD. *)
Lemma int2BCD_loop_pattern (k : nat) :
  forall (fuel : nat) (value bcd : Z) (nib : nat),
    (k <= fuel)%nat -> 0 <= value < 10 ^ Z.of_nat k ->
    (nib <= 7)%nat -> value * 10 ^ Z.of_nat nib < 100000000 ->
    0 <= bcd < 16 ^ Z.of_nat nib ->
    int2BCD_loop fuel value bcd (Z.of_nat nib)
    = Some (ToInt32
              (bcd
               + fold_right Z.add 0
                   (List.map (fun p => digit value p * 16 ^ (Z.of_nat nib + Z.of_nat p))
                             (seq 0 k)))).
Proof.
  induction k as [|k IH]; intros fuel value bcd nib Hfuel Hvalue Hnib Htop Hbcd.
  - assert (value = 0) by (cbn in Hvalue; lia). subst value.
    assert (16 ^ Z.of_nat nib <= 16 ^ 7) by (apply Z.pow_le_mono_r; lia).
    change (16 ^ 7) with 268435456 in *.
    destruct fuel; cbn [int2BCD_loop Z.eqb seq List.map fold_right];
      rewrite Z.add_0_r, ToInt32_small by int32_range; reflexivity.
  - assert (H16 : 16 ^ Z.of_nat nib <= 16 ^ 7) by (apply Z.pow_le_mono_r; lia).
    change (16 ^ 7) with 268435456 in H16.
    destruct (Z.eqb_spec value 0) as [->|Hnz].
    + rewrite digit_sum_zero, Z.add_0_r, ToInt32_small by int32_range.
      destruct fuel; reflexivity.
    + destruct fuel as [|fuel]; [lia|].
      cbn [int2BCD_loop]. destruct (Z.eqb_spec value 0) as [|_]; [contradiction|].
      rewrite Nat2Z.inj_succ, Z.pow_succ_r in Hvalue by lia.
      assert (Hd : 0 <= value mod 10 < 10) by (apply Z.mod_pos_bound; lia).
      assert (Hq : 0 <= value / 10) by (apply Z.div_pos; lia).
      assert (Hdm : value = 10 * (value / 10) + value mod 10) by (apply Z.div_mod; lia).
      assert (Hpos : 0 < 16 ^ Z.of_nat nib) by (apply Z.pow_pos_nonneg; lia).
      rewrite Z.rem_mod_nonneg by lia.
      rewrite digit_sum_shift.
      destruct (Nat.eq_dec nib 7) as [->|Hne].
      * (* the eighth digit *)
        change (10 ^ Z.of_nat 7) with 10000000 in Htop.
        change (16 ^ Z.of_nat 7) with (2 ^ 28) in *.
        assert (Hq0 : value / 10 = 0) by (apply Z.div_small; lia).
        rewrite Hq0, digit_sum_zero, Z.add_0_r.
        unfold js_or, js_shl.
        rewrite (ToInt32_small bcd) by int32_range.
        rewrite (ToInt32_small (value mod 10)) by int32_range.
        change (ToUint32 (4 * Z.of_nat 7) mod 32) with 28.
        rewrite Z.shiftl_mul_pow2 by lia.
        replace (ToInt32 (ToInt32 (value mod 10 * 2 ^ 28)))
          with (ToInt32 (value mod 10 * 2 ^ 28))
          by (unfold ToInt32; int32_range).
        rewrite lor_top_nibble by lia.
        destruct fuel; reflexivity.
      * assert (H6 : 16 ^ Z.of_nat nib <= 16 ^ 6) by (apply Z.pow_le_mono_r; lia).
        change (16 ^ 6) with 16777216 in H6.
        assert (Hs : js_shl (value mod 10) (4 * Z.of_nat nib)
                     = value mod 10 * 16 ^ Z.of_nat nib).
        { unfold js_shl.
          rewrite (ToInt32_small (value mod 10)) by int32_range.
          rewrite ToUint32_small by int32_range.
          rewrite (Z.mod_small (4 * Z.of_nat nib)) by lia.
          rewrite Z.shiftl_mul_pow2, <- pow16_pow2 by lia.
          apply ToInt32_small. change (2 ^ 31) with 2147483648. nia. }
        rewrite Hs. unfold js_or.
        rewrite (ToInt32_small bcd), (ToInt32_small (_ * _))
          by (change (2 ^ 31) with 2147483648; nia).
        rewrite pow16_pow2, lor_above by (rewrite <- ?pow16_pow2; lia).
        rewrite <- pow16_pow2 by lia.
        replace (Z.of_nat nib + 1) with (Z.of_nat (S nib)) by lia.
        rewrite IH; try lia.
        -- do 2 f_equal. rewrite Nat2Z.inj_succ. unfold Z.succ. lia.
        -- rewrite Nat2Z.inj_succ, Z.pow_succ_r by lia. nia.
        -- rewrite Nat2Z.inj_succ, Z.pow_succ_r by lia. nia.
Qed.

Lemma positionalSum_more (a b : Z) (n m : nat) :
  0 < a ->
  forall x : Z, 0 <= x < a ^ Z.of_nat n ->
    positionalSum a b (n + m) x = positionalSum a b n x.
Proof.
  intros Ha. induction n as [|n IH]; intros x Hx.
  - assert (x = 0) by (cbn in Hx; lia). subst x.
    unfold positionalSum. now rewrite !(positional_zero a b Ha).
  - cbn [Nat.add]. rewrite !(positionalSum_succ a b Ha).
    rewrite IH; trivial.
    rewrite Nat2Z.inj_succ, Z.pow_succ_r in Hx by lia.
    split; [apply Z.div_pos; lia|]. apply Z.div_lt_upper_bound; lia.
Qed.

Lemma decimal_digit_bound (value : Z) (p : nat) : (value / 10 ^ Z.of_nat p) mod 10 < 16.
Proof.
  assert (0 <= (value / 10 ^ Z.of_nat p) mod 10 < 10) by (apply Z.mod_pos_bound; lia).
  lia.
Qed.

Lemma packedBCD_range (value : Z) : 0 <= packedBCD 8 value < 2 ^ 32.
Proof.
  change (2 ^ 32) with (16 ^ Z.of_nat 8).
  apply (positionalSum_bound 10 16 ltac:(lia) ltac:(lia) 8 value).
  intros p _. apply decimal_digit_bound.
Qed.

Lemma int2BCD_valid_range (value length : Z) :
  0 <= value -> length <= 4 -> value <= 10 ^ (2 * length) - 1 ->
  0 <= length /\ value < 10 ^ (2 * length) /\ 10 ^ (2 * length) <= 10 ^ 8.
Proof.
  intros Hvalue Hlen Hfit.
  destruct (Z.lt_ge_cases length 0) as [Hneg|Hnn].
  - rewrite Z.pow_neg_r in Hfit by lia. lia.
  - repeat split; try lia. apply Z.pow_le_mono_r; lia.
Qed.

Lemma int2BCD_pattern (fuel : nat) (value length : Z) :
  (8 <= fuel)%nat -> 0 <= value -> length <= 4 -> value <= 10 ^ (2 * length) - 1 ->
  int2BCD fuel value length = Some (Ok (ToInt32 (packedBCD 8 value))).
Proof.
  intros Hfuel Hvalue Hlen Hfit.
  destruct (int2BCD_valid_range _ _ Hvalue Hlen Hfit) as (Hlen0 & Hlt & Hpow).
  unfold int2BCD.
  destruct (Z.gtb_spec length 4) as [|_]; [lia|].
  rewrite (Z.mul_comm length 2).
  destruct (Z.gtb_spec value (10 ^ (2 * length) - 1)) as [|_]; [lia|].
  change (int2BCD_loop fuel value 0 0)
    with (int2BCD_loop fuel value 0 (Z.of_nat 0)).
  change (10 ^ 8) with 100000000 in Hpow.
  rewrite (int2BCD_loop_pattern 8 fuel value 0 0); trivial;
    change (10 ^ Z.of_nat 8) with 100000000; cbn; lia.
Qed.

(** X1.  On every valid input the result of [int2BCD] is the 32-bit integer
    whose bits are the packed BCD of the value (a negative integer when the
    eighth digit is 8 or 9), and the packed BCD takes no more than [length]
    bytes. *)
Theorem int2BCD_bit_pattern (fuel : nat) (value length : Z) :
  (8 <= fuel)%nat -> 0 <= value -> length <= 4 -> value <= 10 ^ (2 * length) - 1 ->
  int2BCD fuel value length = Some (Ok (ToInt32 (packedBCD 8 value)))
  /\ 0 <= packedBCD 8 value < 256 ^ length.
Proof.
  intros Hfuel Hvalue Hlen Hfit.
  destruct (int2BCD_valid_range _ _ Hvalue Hlen Hfit) as (Hlen0 & Hlt & Hpow).
  split; [now apply int2BCD_pattern|].
  - change 256 with (16 ^ 2). rewrite <- Z.pow_mul_r by lia.
    remember (Z.to_nat (2 * length)) as n eqn:En.
    assert (Hn : 2 * length = Z.of_nat n) by lia.
    rewrite Hn in *.
    replace (packedBCD 8 value) with (positionalSum 10 16 (n + (8 - n)) value)
      by (unfold packedBCD, positionalSum; do 3 f_equal; lia).
    rewrite positionalSum_more by lia.
    apply (positionalSum_bound 10 16 ltac:(lia) ltac:(lia) n value).
    intros p _. apply decimal_digit_bound.
Qed.

Lemma int2BCD_bit_pattern_witness :
  int2BCD 8 99999999 4 = Some (Ok (-1717986919))
  /\ ToUint32 (-1717986919) = 0x99999999.
Proof.
  split; [|reflexivity].
  refine (proj1 (int2BCD_bit_pattern 8 99999999 4 _ _ _ _)); [lia|lia|lia|].
  discriminate.
Defined.

(** X2.  [BCD2int] undoes [int2BCD] on every valid input, the values whose
    eighth digit sets the sign bit of the result included. *)
Theorem BCD2int_int2BCD (fuel : nat) (value length : Z) :
  (8 <= fuel)%nat -> 0 <= value -> length <= 4 -> value <= 10 ^ (2 * length) - 1 ->
  exists bcd : Z,
    int2BCD fuel value length = Some (Ok bcd) /\ BCD2int fuel bcd = Some value.
Proof.
  intros Hfuel Hvalue Hlen Hfit.
  destruct (int2BCD_valid_range _ _ Hvalue Hlen Hfit) as (Hlen0 & Hlt & Hpow).
  exists (ToInt32 (packedBCD 8 value)). split.
  - now apply int2BCD_pattern.
  - rewrite BCD2int_low32, ToUint32_ToInt32 by assumption.
    rewrite Z.mod_small by apply packedBCD_range. f_equal.
    change (nibble_sum 8 (packedBCD 8 value))
      with (positionalSum 16 10 8 (positionalSum 10 16 8 value)).
    rewrite positional_inverse; try lia.
    + apply Z.mod_small. change (10 ^ Z.of_nat 8) with (10 ^ 8). lia.
    + intros p _. apply decimal_digit_bound.
Qed.

Lemma BCD2int_int2BCD_witness :
  exists bcd : Z,
    int2BCD 8 98765432 4 = Some (Ok bcd) /\ BCD2int 8 bcd = Some 98765432.
Proof.
  apply (BCD2int_int2BCD 8 98765432 4); [lia|lia|lia|discriminate].
Defined.

(** X3.  [int2BCD] undoes [BCD2int] on a 32-bit value whose nibbles are decimal
    digits: it gives back the 32-bit integer of the same bits. *)
Theorem int2BCD_BCD2int (fuel : nat) (bcd : Z) :
  (8 <= fuel)%nat -> 0 <= bcd < 2 ^ 32 ->
  (forall p : nat, (p < 8)%nat -> nibble bcd p <= 9) ->
  exists value : Z,
    BCD2int fuel bcd = Some value
    /\ 0 <= value <= 99999999
    /\ int2BCD fuel value 4 = Some (Ok (ToInt32 bcd)).
Proof.
  intros Hfuel Hbcd Hnibbles.
  assert (Hdigits : forall p : nat, (p < 8)%nat -> (bcd / 16 ^ Z.of_nat p) mod 16 < 10).
  { intros p Hp. specialize (Hnibbles p Hp). unfold nibble in Hnibbles. lia. }
  pose proof (positionalSum_bound 16 10 ltac:(lia) ltac:(lia) 8 bcd Hdigits) as Hrange.
  change (10 ^ Z.of_nat 8) with 100000000 in Hrange.
  exists (nibble_sum 8 bcd).
  change (nibble_sum 8 bcd) with (positionalSum 16 10 8 bcd).
  split; [|split; [lia|]].
  - rewrite BCD2int_low32, ToUint32_small by assumption. reflexivity.
  - assert (Hfit : positionalSum 16 10 8 bcd <= 10 ^ (2 * 4) - 1)
      by (change (10 ^ (2 * 4) - 1) with 99999999; lia).
    rewrite (int2BCD_pattern fuel (positionalSum 16 10 8 bcd) 4
               Hfuel (proj1 Hrange) ltac:(lia) Hfit). do 3 f_equal.
    change (packedBCD 8 (positionalSum 16 10 8 bcd))
      with (positionalSum 10 16 8 (positionalSum 16 10 8 bcd)).
    rewrite positional_inverse by (trivial; lia).
    apply Z.mod_small. exact Hbcd.
Qed.

Lemma int2BCD_BCD2int_witness :
  exists value : Z,
    BCD2int 8 0x00591230 = Some value
    /\ 0 <= value <= 99999999
    /\ int2BCD 8 value 4 = Some (Ok (ToInt32 0x00591230)).
Proof.
  apply (int2BCD_BCD2int 8 0x00591230); [lia|split; [discriminate|reflexivity]|].
  intros p Hp. do 8 (destruct p as [|p]; [discriminate|]). lia.
Defined.

(** ** Literal bytes written in hexadecimal *)

Lemma allAscii_complete (P : ascii -> bool) :
  forallb P allAscii = true -> forall c : ascii, P c = true.
Proof.
  intros Hall c. rewrite forallb_forall in Hall. apply Hall.
  unfold allAscii. rewrite <- (ascii_nat_embedding c).
  apply in_map, in_seq. pose proof (nat_ascii_bounded c). lia.
Qed.

Lemma hexDigitValue_range (c : ascii) (a : Z) :
  hexDigitValue c = Some a -> 0 <= a < 16.
Proof.
  unfold hexDigitValue.
  repeat match goal with
         | |- context [if ?b then _ else _] => destruct b eqn:?
         end; intros [= <-]; try discriminate;
    repeat match goal with
           | H : (_ && _) = true |- _ => apply andb_true_iff in H as [? ?]
           end; lia.
Qed.

(** [Number.parseInt] reads two hexadecimal digits as the byte they write. *)
Lemma parseInt16_hex (h c : ascii) (a b : Z) :
  hexDigitValue h = Some a -> hexDigitValue c = Some b ->
  parseInt16 [h; c] = Num (16 * a + b) /\ isByte (16 * a + b) = true.
Proof.
  intros Hh Hc.
  assert (Hall : forallb (fun h' => forallb (hexPairOk h') allAscii) allAscii = true)
    by (vm_compute; reflexivity).
  pose proof (allAscii_complete _ (allAscii_complete _ Hall h) c) as Hok.
  unfold hexPairOk in Hok. rewrite Hh, Hc in Hok.
  split.
  - destruct (parseInt16 [h; c]) as [v|]; [|discriminate].
    apply Z.eqb_eq in Hok. now subst v.
  - apply isByte_spec.
    pose proof (hexDigitValue_range _ _ Hh). pose proof (hexDigitValue_range _ _ Hc). lia.
Qed.

(** ** Queries with literal bytes and tokens *)

Lemma hexDigit_not_marker (c : ascii) (a : Z) :
  hexDigitValue c = Some a -> Ascii.eqb c "%" = false /\ Ascii.eqb c " " = false.
Proof.
  intros H. split.
  - destruct (Ascii.eqb_spec c "%") as [->|]; [discriminate|reflexivity].
  - destruct (Ascii.eqb_spec c " ") as [->|]; [discriminate|reflexivity].
Qed.

(** The two walks over a wire format, in any context: [formatQuery] takes
    the arguments of the format from the front of the argument stack and
    appends an encoding of them, which [scanQuery] takes from the front of
    the input and reads back to the arguments. *)
Lemma wire_walk (format : string) :
  forall (half : option ascii) (escaped : bool) (args : list value),
    wireFormat half escaped format args = true ->
    exists enc : list Z,
      forallb isByte enc = true
      /\ (forall (r : list number) (rest : list value),
             FormatQuery.walk {| FormatQuery.result := r; FormatQuery.half := half;
                                 FormatQuery.argStack := args ++ rest;
                                 FormatQuery.escaped := escaped |} format
             = Ok {| FormatQuery.result := r ++ List.map Num enc;
                     FormatQuery.half := None; FormatQuery.argStack := rest;
                     FormatQuery.escaped := false |})
      /\ (forall (L : Z) (res : list value) (tail : list Z),
             ScanQuery.walk L {| ScanQuery.result := res;
                                 ScanQuery.inputStack := enc ++ tail;
                                 ScanQuery.half := half;
                                 ScanQuery.escaped := escaped |} format
             = Ok {| ScanQuery.result := res ++ List.map decodedArg args;
                     ScanQuery.inputStack := tail; ScanQuery.half := None;
                     ScanQuery.escaped := false |}).
Proof.
  induction format as [|c format IH]; intros half escaped args; cbn [wireFormat].
  - rewrite !andb_true_iff. intros [[Hhalf Hesc] Hargs].
    destruct half; [discriminate|]. destruct escaped; [discriminate|].
    destruct args; [|discriminate].
    exists []. cbn [List.map FormatQuery.walk ScanQuery.walk app forallb].
    repeat split; intros; now rewrite app_nil_r.
  - destruct escaped.
    + destruct args as [|v args]; [discriminate|].
      rewrite !andb_true_iff. intros [[Harg Hstar] Hrest].
      apply negb_true_iff in Hstar.
      destruct (IH _ _ _ Hrest) as (enc & Hbytes & Hformat & Hscan).
      destruct (tokenArg_cases _ _ Harg)
        as [(width & n & Hdict & Hv & Hn)
           |(s & Hdict & -> & Hs & [[-> Hlen]|[[-> Hlen]| ->]])];
        [| | |discriminate].
      * (* an integer *)
        exists (bigEndianBytes width n ++ enc). split; [|split].
        -- now rewrite forallb_app, bigEndianBytes_bytes.
        -- intros r rest. rewrite format_walk_cons, <- app_comm_cons.
           rewrite (format_int_token _ _ _ _ _ _ n Hdict)
             by (destruct Hv; subst v; reflexivity).
           cbn [bind]. rewrite Hformat, pushBytes_Num, map_app, app_assoc. reflexivity.
        -- intros L res tail.
           rewrite scan_walk_cons, (scan_int_token _ _ _ _ _ _ Hdict), <- app_assoc.
           rewrite readBytes_bigEndian by assumption. cbn [bind fst snd].
           rewrite Hscan, <- app_assoc.
           destruct Hv; subst v; reflexivity.
      * (* a string, [x] *)
        assert (Hpre : 0 <= Z.of_nat (List.length s) < 65536) by lia.
        exists ([Z.of_nat (List.length s) / 256; Z.of_nat (List.length s) mod 256]
                  ++ s ++ enc).
        split; [|split].
        -- now rewrite !forallb_app, isByte_prefix, Hs.
        -- intros r rest. rewrite format_walk_cons, <- app_comm_cons.
           rewrite format_string_token by auto.
           cbn [Ascii.eqb Bool.eqb bind]. rewrite Hformat, Num_prefix by assumption.
           rewrite !map_app, app_nil_r, <- !app_assoc. reflexivity.
        -- intros L res tail. rewrite scan_walk_cons, <- !app_assoc. cbn [app].
           rewrite (scan_string_token _ _ _ _ _ s (enc ++ tail))
             by (auto; Z.div_mod_to_equations; lia).
           cbn [Ascii.eqb Bool.eqb bind].
           rewrite Hscan, fromCharCode_bytes, <- app_assoc by assumption. reflexivity.
      * (* a string, [s] *)
        assert (Hpre : 0 <= Z.of_nat (List.length s) + 1 < 65536) by lia.
        exists ([(Z.of_nat (List.length s) + 1) / 256;
                 (Z.of_nat (List.length s) + 1) mod 256] ++ (s ++ [0]) ++ enc).
        split; [|split].
        -- rewrite !forallb_app, isByte_prefix, Hs by assumption. exact Hbytes.
        -- intros r rest. rewrite format_walk_cons, <- app_comm_cons.
           rewrite format_string_token by auto.
           cbn [Ascii.eqb Bool.eqb bind]. rewrite Hformat, Num_prefix by assumption.
           rewrite !map_app, <- !app_assoc. reflexivity.
        -- intros L res tail. rewrite scan_walk_cons, <- !app_assoc. cbn [app].
           change (s ++ 0 :: enc ++ tail) with (s ++ [0] ++ enc ++ tail).
           rewrite (app_assoc s [0] (enc ++ tail)).
           rewrite (scan_string_token _ _ _ _ _ (s ++ [0]) (enc ++ tail)).
           ++ cbn [Ascii.eqb Bool.eqb bind].
              rewrite Hscan, fromCharCode_bytes, removelast_last, <- app_assoc;
                [reflexivity|].
              now rewrite forallb_app, Hs.
           ++ auto.
           ++ Z.div_mod_to_equations; lia.
           ++ Z.div_mod_to_equations; lia.
           ++ rewrite length_app. cbn [List.length]. Z.div_mod_to_equations; lia.
    + destruct (Ascii.eqb_spec c "%") as [->|Hpercent].
      * rewrite andb_true_iff. intros [Hhalf Hrest].
        destruct half; [discriminate|].
        destruct (IH _ _ _ Hrest) as (enc & Hbytes & Hformat & Hscan).
        exists enc. split; [exact Hbytes|split].
        -- intros r rest. rewrite format_walk_cons, format_percent. apply Hformat.
        -- intros L res tail. rewrite scan_walk_cons, scan_percent. apply Hscan.
      * apply Ascii.eqb_neq in Hpercent.
        destruct (Ascii.eqb c " ") eqn:Hspace.
        -- intros Hrest.
           destruct (IH _ _ _ Hrest) as (enc & Hbytes & Hformat & Hscan).
           exists enc. split; [exact Hbytes|split].
           ++ intros r rest. rewrite format_walk_cons. unfold FormatQuery.step.
              cbn [FormatQuery.escaped]. rewrite Hpercent, Hspace. apply Hformat.
           ++ intros L res tail. rewrite scan_walk_cons. unfold ScanQuery.step.
              cbn [ScanQuery.escaped]. rewrite Hpercent, Hspace. apply Hscan.
        -- destruct (hexDigitValue c) as [b|] eqn:Hc; [|discriminate].
           destruct half as [h|].
           ++ (* the second digit of a literal byte *)
              destruct (hexDigitValue h) as [a|] eqn:Hh; [|discriminate].
              intros Hrest.
              destruct (IH _ _ _ Hrest) as (enc & Hbytes & Hformat & Hscan).
              destruct (parseInt16_hex _ _ _ _ Hh Hc) as [Hparse Hbyte].
              exists ((16 * a + b) :: enc). split; [|split].
              ** cbn [forallb]. now rewrite Hbyte.
              ** intros r rest. rewrite format_walk_cons. unfold FormatQuery.step.
                 cbn [FormatQuery.escaped FormatQuery.half FormatQuery.result
                      FormatQuery.argStack].
                 rewrite Hpercent, Hspace, Hparse. cbn [bind].
                 rewrite Hformat. cbn [List.map]. now rewrite <- app_assoc.
              ** intros L res tail. rewrite scan_walk_cons. unfold ScanQuery.step.
                 cbn [ScanQuery.escaped ScanQuery.half ScanQuery.result
                      ScanQuery.inputStack app shift].
                 rewrite Hpercent, Hspace, Hparse. cbn [ScanQuery.differs].
                 rewrite Z.eqb_refl. cbn [negb bind]. apply Hscan.
           ++ (* the first digit of a literal byte *)
              intros Hrest.
              destruct (IH _ _ _ Hrest) as (enc & Hbytes & Hformat & Hscan).
              exists enc. split; [exact Hbytes|split].
              ** intros r rest. rewrite format_walk_cons. unfold FormatQuery.step.
                 cbn [FormatQuery.escaped FormatQuery.half FormatQuery.result
                      FormatQuery.argStack].
                 rewrite Hpercent, Hspace. apply Hformat.
              ** intros L res tail. rewrite scan_walk_cons. unfold ScanQuery.step.
                 cbn [ScanQuery.escaped ScanQuery.half ScanQuery.result
                      ScanQuery.inputStack].
                 rewrite Hpercent, Hspace. apply Hscan.
Qed.

(** X4.  A query of literal bytes and tokens is decoded from its encoding: for a
    format of two-digit hexadecimal bytes, spaces and tokens [b], [w], [d],
    [q], [x], [s], and arguments that suit the tokens, [formatQuery] returns
    a buffer of bytes that [scanQuery], with the same format, decodes to the
    arguments (the integers as JSBI integers). *)
Theorem wire_roundtrip (format : string) (args : list value) :
  wireFormat None false format args = true ->
  exists bytes : list Z,
    formatQuery format args = Ok bytes
    /\ forallb isByte bytes = true
    /\ scanQuery bytes format = Ok (List.map decodedArg args).
Proof.
  intros Hwire.
  destruct (wire_walk _ _ _ _ Hwire) as (enc & Hbytes & Hformat & Hscan).
  exists enc. split; [|split; [exact Hbytes|]].
  - unfold formatQuery, FormatQuery.init.
    rewrite <- (app_nil_r args), Hformat. cbn [bind FormatQuery.result app].
    now rewrite ToUint8_bytes.
  - unfold scanQuery, ScanQuery.init.
    rewrite <- (app_nil_r enc) at 2. rewrite Hscan. reflexivity.
Qed.

Lemma wire_roundtrip_witness :
  exists bytes : list Z,
    formatQuery "1806 02 %b 00%w ff %x" [VNumber 3; VNumber 0x1001; VString (str "MD")]
    = Ok bytes
    /\ forallb isByte bytes = true
    /\ scanQuery bytes "1806 02 %b 00%w ff %x"
       = Ok [VBigInt 3; VBigInt 0x1001; VString (str "MD")].
Proof.
  exact (wire_roundtrip "1806 02 %b 00%w ff %x"
           [VNumber 3; VNumber 0x1001; VString (str "MD")] eq_refl).
Defined.

(** X5.  Bytes after an encoded query are refused: the buffer that [formatQuery]
    returns for a wire format, followed by more bytes, makes [scanQuery]
    throw the error of the remaining bytes, with their count. *)
Theorem wire_trailing_bytes (format : string) (args : list value)
        (bytes tail : list Z) :
  wireFormat None false format args = true ->
  formatQuery format args = Ok bytes ->
  tail <> [] ->
  scanQuery (bytes ++ tail) format = Throw (BytesRemaining (List.length tail)).
Proof.
  intros Hwire Hformat Htail.
  destruct (wire_walk _ _ _ _ Hwire) as (enc & Hbytes & Hwalk & Hscan).
  assert (bytes = enc) as ->.
  { unfold formatQuery, FormatQuery.init in Hformat.
    rewrite <- (app_nil_r args), Hwalk in Hformat.
    cbn [bind FormatQuery.result app] in Hformat.
    rewrite ToUint8_bytes in Hformat by assumption. congruence. }
  unfold scanQuery, ScanQuery.init. rewrite Hscan.
  cbn [bind ScanQuery.inputStack]. destruct tail; [contradiction|reflexivity].
Qed.

Lemma wire_trailing_bytes_witness :
  scanQuery ([0x18; 0x00; 0x02; 0x68; 0x69] ++ [0x00; 0x00]) "18 %x"
  = Throw (BytesRemaining 2).
Proof.
  apply (wire_trailing_bytes "18 %x" [VString (str "hi")]);
    [reflexivity|reflexivity|discriminate].
Defined.

Lemma format_rest_token (r : list number) (v : value) (payload : list Z) :
  v = VUint8Array payload \/ v = VString payload ->
  FormatQuery.walk {| FormatQuery.result := r; FormatQuery.half := None;
                      FormatQuery.argStack := [v]; FormatQuery.escaped := false |}
                   "%*"
  = Ok {| FormatQuery.result := r ++ List.map Num payload; FormatQuery.half := None;
          FormatQuery.argStack := []; FormatQuery.escaped := false |}.
Proof. intros [->| ->]; reflexivity. Qed.

Lemma scan_rest_bytes (L : Z) (res : list value) (input : list Z) :
  ScanQuery.walk L {| ScanQuery.result := res; ScanQuery.inputStack := input;
                      ScanQuery.half := None; ScanQuery.escaped := false |} "%#"
  = Ok {| ScanQuery.result := res ++ [VUint8Array (List.map (fun n => ToUint8 (Num n)) input)];
          ScanQuery.inputStack := []; ScanQuery.half := None;
          ScanQuery.escaped := false |}.
Proof. reflexivity. Qed.

Lemma scan_rest_string (L : Z) (res : list value) (input : list Z) :
  ScanQuery.walk L {| ScanQuery.result := res; ScanQuery.inputStack := input;
                      ScanQuery.half := None; ScanQuery.escaped := false |} "%*"
  = Ok {| ScanQuery.result := res ++ [VString (fromCharCode input)];
          ScanQuery.inputStack := []; ScanQuery.half := None;
          ScanQuery.escaped := false |}.
Proof. reflexivity. Qed.

(** X6.  A payload at the end of a query: after a wire format, a byte sequence
    (or a string of byte-sized characters) passed to the token [*] is
    appended as it is, and is decoded from the buffer as a byte sequence by
    the token [#] (as a string by the token [*]) at the same place. *)
Theorem rest_payload (format : string) (args : list value) (payload : list Z) :
  wireFormat None false format args = true ->
  forallb isByte payload = true ->
  exists bytes : list Z,
    formatQuery (format ++ "%*") (args ++ [VUint8Array payload]) = Ok (bytes ++ payload)
    /\ formatQuery (format ++ "%*") (args ++ [VString payload]) = Ok (bytes ++ payload)
    /\ formatQuery format args = Ok bytes
    /\ scanQuery (bytes ++ payload) (format ++ "%#")
       = Ok (List.map decodedArg args ++ [VUint8Array payload])
    /\ scanQuery (bytes ++ payload) (format ++ "%*")
       = Ok (List.map decodedArg args ++ [VString payload]).
Proof.
  intros Hwire Hpayload.
  destruct (wire_walk _ _ _ _ Hwire) as (enc & Hbytes & Hformat & Hscan).
  assert (Hall : List.map ToUint8 (List.map Num enc ++ List.map Num payload)
                 = enc ++ payload)
    by (now rewrite <- map_app, ToUint8_bytes by (now rewrite forallb_app, Hbytes)).
  assert (Hpay : List.map (fun n => ToUint8 (Num n)) payload = payload)
    by (now rewrite <- (map_map Num ToUint8), ToUint8_bytes).
  exists enc. repeat apply conj.
  - unfold formatQuery, FormatQuery.init. rewrite format_walk_app, Hformat.
    cbn [bind]. rewrite (format_rest_token _ _ payload) by auto.
    cbn [bind FormatQuery.result app]. now rewrite Hall.
  - unfold formatQuery, FormatQuery.init. rewrite format_walk_app, Hformat.
    cbn [bind]. rewrite (format_rest_token _ _ payload) by auto.
    cbn [bind FormatQuery.result app]. now rewrite Hall.
  - unfold formatQuery, FormatQuery.init.
    rewrite <- (app_nil_r args), Hformat. cbn [bind FormatQuery.result app].
    now rewrite ToUint8_bytes.
  - unfold scanQuery, ScanQuery.init. rewrite scan_walk_app, Hscan.
    cbn [bind]. rewrite scan_rest_bytes, Hpay. reflexivity.
  - unfold scanQuery, ScanQuery.init. rewrite scan_walk_app, Hscan.
    cbn [bind]. rewrite scan_rest_string, fromCharCode_bytes by assumption.
    reflexivity.
Qed.

Lemma rest_payload_witness :
  exists bytes : list Z,
    formatQuery "1808 %w%*" [VNumber 2; VUint8Array [0xDE; 0xAD]] = Ok (bytes ++ [0xDE; 0xAD])
    /\ formatQuery "1808 %w%*" [VNumber 2; VString [0xDE; 0xAD]] = Ok (bytes ++ [0xDE; 0xAD])
    /\ formatQuery "1808 %w" [VNumber 2] = Ok bytes
    /\ scanQuery (bytes ++ [0xDE; 0xAD]) "1808 %w%#"
       = Ok [VBigInt 2; VUint8Array [0xDE; 0xAD]]
    /\ scanQuery (bytes ++ [0xDE; 0xAD]) "1808 %w%*"
       = Ok [VBigInt 2; VString [0xDE; 0xAD]].
Proof.
  exact (rest_payload "1808 %w" [VNumber 2] [0xDE; 0xAD] eq_refl eq_refl).
Defined.

(** ** Verification of literal bytes *)

Lemma differs_undefined (formatValue : number) : ScanQuery.differs formatValue None = true.
Proof. now destruct formatValue. Qed.

Lemma differs_same (b : Z) : ScanQuery.differs (Num b) (Some b) = false.
Proof. cbn. now rewrite Z.eqb_refl. Qed.

(** The walk of [scanQuery] over a format of literal bytes, on an input
    that agrees with the first literal values [pre]. *)
Lemma literal_walk (format : string) :
  noEscape format = true ->
  forall (half : option ascii) (L : Z) (res : list value) (pre : list Z),
    (forall q : list Z,
        literals half format = List.map Num pre ->
        exists half',
          ScanQuery.walk L {| ScanQuery.result := res; ScanQuery.inputStack := pre ++ q;
                              ScanQuery.half := half; ScanQuery.escaped := false |} format
          = Ok {| ScanQuery.result := res; ScanQuery.inputStack := q;
                  ScanQuery.half := half'; ScanQuery.escaped := false |})
    /\ (forall (e : number) (es : list number) (b : Z) (q : list Z),
           literals half format = List.map Num pre ++ e :: es ->
           ScanQuery.differs e (Some b) = true ->
           ScanQuery.walk L {| ScanQuery.result := res;
                               ScanQuery.inputStack := pre ++ b :: q;
                               ScanQuery.half := half; ScanQuery.escaped := false |} format
           = Throw (Mismatch (L - Z.of_nat (List.length q) - 1) e (Some b)))
    /\ (forall (e : number) (es : list number),
           literals half format = List.map Num pre ++ e :: es ->
           ScanQuery.walk L {| ScanQuery.result := res; ScanQuery.inputStack := pre;
                               ScanQuery.half := half; ScanQuery.escaped := false |} format
           = Throw (Mismatch (L - 1) e None)).
Proof.
  induction format as [|c format IH]; cbn [noEscape literals].
  - intros _ half L res pre. split; [|split].
    + intros q Hlit. destruct pre; [|discriminate]. now exists half.
    + intros e es b q Hlit. now destruct pre.
    + intros e es Hlit. now destruct pre.
  - rewrite andb_true_iff, negb_true_iff. intros [Hpercent Hno] half L res pre.
    specialize (IH Hno).
    destruct (Ascii.eqb c " ") eqn:Hspace.
    + (* a space *)
      assert (Hstep : forall input,
                 ScanQuery.step L {| ScanQuery.result := res; ScanQuery.inputStack := input;
                                     ScanQuery.half := half; ScanQuery.escaped := false |} c
                 = Ok {| ScanQuery.result := res; ScanQuery.inputStack := input;
                         ScanQuery.half := half; ScanQuery.escaped := false |}).
      { intros input. unfold ScanQuery.step. cbn [ScanQuery.escaped].
        now rewrite Hpercent, Hspace. }
      destruct (IH half L res pre) as (H1 & H2 & H3).
      split; [|split]; intros; rewrite scan_walk_cons, Hstep; cbn [bind]; eauto.
    + destruct half as [h|].
      * (* the second character of a pair *)
        assert (Hstep : forall input,
                   ScanQuery.step L {| ScanQuery.result := res;
                                       ScanQuery.inputStack := input;
                                       ScanQuery.half := Some h;
                                       ScanQuery.escaped := false |} c
                   = if ScanQuery.differs (parseInt16 [h; c]) (fst (shift input))
                     then Throw (Mismatch (L - Z.of_nat (List.length (snd (shift input))) - 1)
                                          (parseInt16 [h; c]) (fst (shift input)))
                     else Ok {| ScanQuery.result := res;
                                ScanQuery.inputStack := snd (shift input);
                                ScanQuery.half := None; ScanQuery.escaped := false |}).
        { intros input. unfold ScanQuery.step.
          cbn [ScanQuery.escaped ScanQuery.half ScanQuery.inputStack ScanQuery.result].
          rewrite Hpercent, Hspace. now destruct (shift input). }
        split; [|split].
        -- intros q Hlit. destruct pre as [|p pre]; [discriminate|].
           cbn [List.map] in Hlit. injection Hlit as Hparse Hlit.
           rewrite scan_walk_cons, Hstep, Hparse. cbn [app shift fst snd].
           rewrite differs_same. cbn [bind].
           now apply (IH None L res pre).
        -- intros e es b q Hlit Hdiff. rewrite scan_walk_cons, Hstep.
           destruct pre as [|p pre]; cbn [List.map app] in Hlit;
             injection Hlit as Hparse Hlit; rewrite Hparse; cbn [app shift fst snd].
           ++ now rewrite Hdiff.
           ++ rewrite differs_same. cbn [bind].
              now apply (IH None L res pre) with (es := es).
        -- intros e es Hlit. rewrite scan_walk_cons, Hstep.
           destruct pre as [|p pre]; cbn [List.map app] in Hlit;
             injection Hlit as Hparse Hlit; rewrite Hparse; cbn [app shift fst snd].
           ++ rewrite differs_undefined. cbn [List.length Z.of_nat].
              now rewrite Z.sub_0_r.
           ++ rewrite differs_same. cbn [bind].
              now apply (IH None L res pre) with (es := es).
      * (* the first character of a pair *)
        assert (Hstep : forall input,
                   ScanQuery.step L {| ScanQuery.result := res;
                                       ScanQuery.inputStack := input;
                                       ScanQuery.half := None;
                                       ScanQuery.escaped := false |} c
                   = Ok {| ScanQuery.result := res; ScanQuery.inputStack := input;
                           ScanQuery.half := Some c; ScanQuery.escaped := false |}).
        { intros input. unfold ScanQuery.step.
          cbn [ScanQuery.escaped ScanQuery.half ScanQuery.inputStack ScanQuery.result].
          now rewrite Hpercent, Hspace. }
        destruct (IH (Some c) L res pre) as (H1 & H2 & H3).
        split; [|split]; intros; rewrite scan_walk_cons, Hstep; cbn [bind]; eauto.
Qed.

(** [formatQuery] on a format of literal bytes pushes the literal values
    and takes no argument. *)
Lemma literal_format_walk (format : string) :
  noEscape format = true ->
  forall (half : option ascii) (r : list number) (args : list value),
  exists half',
    FormatQuery.walk {| FormatQuery.result := r; FormatQuery.half := half;
                        FormatQuery.argStack := args; FormatQuery.escaped := false |}
                     format
    = Ok {| FormatQuery.result := r ++ literals half format; FormatQuery.half := half';
            FormatQuery.argStack := args; FormatQuery.escaped := false |}.
Proof.
  induction format as [|c format IH]; cbn [noEscape literals].
  - intros _ half r args. exists half. cbn. now rewrite app_nil_r.
  - rewrite andb_true_iff, negb_true_iff. intros [Hpercent Hno] half r args.
    specialize (IH Hno). rewrite format_walk_cons. unfold FormatQuery.step.
    cbn [FormatQuery.escaped FormatQuery.half FormatQuery.result FormatQuery.argStack].
    rewrite Hpercent. destruct (Ascii.eqb c " "); [apply IH|].
    destruct half as [h|]; cbn [bind].
    + destruct (IH None (r ++ [parseInt16 [h; c]]) args) as [half' Hwalk].
      exists half'. rewrite Hwalk, <- app_assoc. reflexivity.
    + apply IH.
Qed.

(** X7.  A format of literal bytes only is a byte-by-byte comparison: the buffer
    of the literal values is accepted, with no value returned; a buffer that
    agrees with the first [k] literal values and differs at the next byte is
    refused with the offset [k], the value expected and the byte found; a
    buffer that ends after [k] bytes while a literal value is still expected
    is refused with the offset [k - 1] and [undefined]; bytes after the last
    literal value are refused with their count; and [formatQuery] returns
    the bytes of the literal values, whatever the arguments. *)
Theorem literal_verification (format : string) (pre : list Z) :
  noEscape format = true ->
  (literals None format = List.map Num pre -> scanQuery pre format = Ok [])
  /\ (forall (e : number) (es : list number) (b : Z) (rest : list Z),
         literals None format = List.map Num pre ++ e :: es ->
         ScanQuery.differs e (Some b) = true ->
         scanQuery (pre ++ b :: rest) format
         = Throw (Mismatch (Z.of_nat (List.length pre)) e (Some b)))
  /\ (forall (e : number) (es : list number),
         literals None format = List.map Num pre ++ e :: es ->
         scanQuery pre format = Throw (Mismatch (Z.of_nat (List.length pre) - 1) e None))
  /\ (forall rest : list Z,
         literals None format = List.map Num pre -> rest <> [] ->
         scanQuery (pre ++ rest) format = Throw (BytesRemaining (List.length rest)))
  /\ (forall args : list value,
         formatQuery format args = Ok (List.map ToUint8 (literals None format))).
Proof.
  intros Hno. split; [|split; [|split; [|split]]].
  - intros Hlit. unfold scanQuery, ScanQuery.init.
    destruct (literal_walk _ Hno None (Z.of_nat (List.length pre)) [] pre) as (H1 & _ & _).
    destruct (H1 [] Hlit) as [half' Hwalk]. rewrite app_nil_r in Hwalk.
    now rewrite Hwalk.
  - intros e es b rest Hlit Hdiff. unfold scanQuery, ScanQuery.init.
    destruct (literal_walk _ Hno None (Z.of_nat (List.length (pre ++ b :: rest))) [] pre)
      as (_ & H2 & _).
    rewrite (H2 _ _ _ _ Hlit Hdiff). cbn [bind]. do 2 f_equal.
    rewrite length_app. cbn [List.length]. lia.
  - intros e es Hlit. unfold scanQuery, ScanQuery.init.
    destruct (literal_walk _ Hno None (Z.of_nat (List.length pre)) [] pre) as (_ & _ & H3).
    now rewrite (H3 _ _ Hlit).
  - intros rest Hlit Hrest. unfold scanQuery, ScanQuery.init.
    destruct (literal_walk _ Hno None (Z.of_nat (List.length (pre ++ rest))) [] pre)
      as (H1 & _ & _).
    destruct (H1 rest Hlit) as [half' Hwalk]. rewrite Hwalk.
    cbn [bind ScanQuery.inputStack]. destruct rest; [contradiction|reflexivity].
  - intros args. unfold formatQuery, FormatQuery.init.
    destruct (literal_format_walk _ Hno None [] args) as [half' Hwalk].
    now rewrite Hwalk.
Qed.

Lemma literal_verification_witness :
  scanQuery ([0x18; 0x06] ++ 0x03 :: [0x10]) "1806 0210"
  = Throw (Mismatch 2 (Num 0x02) (Some 0x03))
  /\ scanQuery [0x18; 0x06] "1806 0210" = Throw (Mismatch 1 (Num 0x02) None).
Proof.
  destruct (literal_verification "1806 0210" [0x18; 0x06] eq_refl)
    as (_ & Hdiff & Hshort & _).
  split.
  - exact (Hdiff (Num 0x02) [Num 0x10] 0x03 [0x10] eq_refl eq_refl).
  - exact (Hshort (Num 0x02) [Num 0x10] eq_refl).
Defined.

(** ** Spaces *)

(** X8.  A space outside escaped mode changes nothing, between the two digits of
    a literal byte included: both functions give the same outcome on a
    format with and without it. *)
Theorem space_ignored (before after : string) (args : list value) (query : list Z) :
  (forall half, pending None false before <> Some (half, true)) ->
  formatQuery (before ++ String " " after) args = formatQuery (before ++ after) args
  /\ scanQuery query (before ++ String " " after) = scanQuery query (before ++ after).
Proof.
  intros Hpending. split.
  - unfold formatQuery. rewrite !format_walk_app.
    destruct (FormatQuery.walk (FormatQuery.init args) before) as [st| |] eqn:Hwalk;
      cbn [bind]; trivial.
    apply format_walk_pending in Hwalk. cbn [FormatQuery.init FormatQuery.half
      FormatQuery.escaped] in Hwalk.
    rewrite format_walk_cons. unfold FormatQuery.step.
    destruct (FormatQuery.escaped st); [now apply Hpending in Hwalk|reflexivity].
  - unfold scanQuery. rewrite !scan_walk_app.
    destruct (ScanQuery.walk _ (ScanQuery.init query) before) as [st| |] eqn:Hwalk;
      cbn [bind]; trivial.
    apply scan_walk_pending in Hwalk. cbn [ScanQuery.init ScanQuery.half
      ScanQuery.escaped] in Hwalk.
    rewrite scan_walk_cons. unfold ScanQuery.step.
    destruct (ScanQuery.escaped st); [now apply Hpending in Hwalk|reflexivity].
Qed.

Lemma space_ignored_witness :
  formatQuery "1 8%b" [VNumber 1] = Ok [0x18; 1]
  /\ scanQuery [0x18; 1] "1 8%b" = Ok [VBigInt 1].
Proof.
  destruct (space_ignored "1" "8%b" [VNumber 1] [0x18; 1]) as [Hformat Hscan];
    [discriminate|].
  split; [exact (eq_trans Hformat eq_refl)|exact (eq_trans Hscan eq_refl)].
Defined.

(** ** Arguments and tokens *)

Lemma format_step_arguments (r : list number) (h : option ascii) (args extra : list value)
      (e : bool) (c : ascii) (st' : FormatQuery.state) :
  FormatQuery.step {| FormatQuery.result := r; FormatQuery.half := h;
                      FormatQuery.argStack := args; FormatQuery.escaped := e |} c
  = Ok st' ->
  FormatQuery.step {| FormatQuery.result := r; FormatQuery.half := h;
                      FormatQuery.argStack := args ++ extra;
                      FormatQuery.escaped := e |} c
  = Ok {| FormatQuery.result := FormatQuery.result st';
          FormatQuery.half := FormatQuery.half st';
          FormatQuery.argStack := FormatQuery.argStack st' ++ extra;
          FormatQuery.escaped := FormatQuery.escaped st' |}
  /\ List.length args
     = ((if e then 1 else 0) + List.length (FormatQuery.argStack st'))%nat.
Proof.
  unfold FormatQuery.step.
  cbn [FormatQuery.escaped FormatQuery.argStack FormatQuery.result FormatQuery.half].
  destruct e.
  - destruct args as [|v args]; cbn [app shift].
    + destruct (FORMAT_TYPE_LEN_DICT c); [discriminate|].
      destruct (Ascii.eqb c "x" || Ascii.eqb c "s"); [discriminate|].
      destruct (Ascii.eqb c "*"); discriminate.
    + destruct (FORMAT_TYPE_LEN_DICT c).
      * destruct (JSBI_BigInt v); cbn [bind]; intros [= <-]; split; reflexivity.
      * destruct (Ascii.eqb c "x" || Ascii.eqb c "s").
        -- destruct (assertString v); cbn [bind]; intros [= <-]; split; reflexivity.
        -- destruct (Ascii.eqb c "*"); [|discriminate].
           destruct v; intros [= <-]; split; reflexivity.
  - destruct (Ascii.eqb c "%").
    + destruct h; [discriminate|]. intros [= <-]; split; reflexivity.
    + destruct (Ascii.eqb c " "); [intros [= <-]; split; reflexivity|].
      destruct h; intros [= <-]; split; reflexivity.
Qed.

Lemma format_walk_arguments (format : string) :
  forall (r : list number) (h : option ascii) (args extra : list value) (e : bool)
         (st' : FormatQuery.state),
    FormatQuery.walk {| FormatQuery.result := r; FormatQuery.half := h;
                        FormatQuery.argStack := args; FormatQuery.escaped := e |} format
    = Ok st' ->
    FormatQuery.walk {| FormatQuery.result := r; FormatQuery.half := h;
                        FormatQuery.argStack := args ++ extra;
                        FormatQuery.escaped := e |} format
    = Ok {| FormatQuery.result := FormatQuery.result st';
            FormatQuery.half := FormatQuery.half st';
            FormatQuery.argStack := FormatQuery.argStack st' ++ extra;
            FormatQuery.escaped := FormatQuery.escaped st' |}
    /\ (tokenCount e format <= List.length args)%nat.
Proof.
  induction format as [|c format IH]; intros r h args extra e st'.
  - cbn. intros [= <-]. split; [reflexivity|lia].
  - rewrite !format_walk_cons.
    destruct (FormatQuery.step _ c) as [st1| |] eqn:Hstep; cbn [bind]; try discriminate.
    destruct (format_step_arguments _ _ _ extra _ _ _ Hstep) as [Hstep' Hcount].
    rewrite Hstep'. cbn [bind]. intros Hwalk.
    pose proof (format_step_escaped _ _ _ Hstep) as Hesc.
    cbn [FormatQuery.escaped] in Hesc.
    destruct st1 as [r1 h1 args1 e1]. cbn [FormatQuery.result FormatQuery.half
      FormatQuery.argStack FormatQuery.escaped] in *.
    destruct (IH _ _ _ extra _ _ Hwalk) as [Hwalk' Hle].
    split; [exact Hwalk'|].
    cbn [tokenCount]. subst e1. destruct e; cbn [negb andb] in Hle; lia.
Qed.

(** X9.  Every token of [formatQuery] takes one argument: a call that returns
    was given at least as many arguments as the format has tokens, and the
    arguments beyond them are ignored. *)
Theorem surplus_arguments (format : string) (args extra : list value) (bytes : list Z) :
  formatQuery format args = Ok bytes ->
  (tokenCount false format <= List.length args)%nat
  /\ formatQuery format (args ++ extra) = Ok bytes.
Proof.
  unfold formatQuery, FormatQuery.init.
  destruct (FormatQuery.walk _ format) as [st| |] eqn:Hwalk; cbn [bind]; try discriminate.
  intros [= <-].
  destruct (format_walk_arguments _ _ _ _ extra _ _ Hwalk) as [Hwalk' Hle].
  split; [exact Hle|]. now rewrite Hwalk'.
Qed.

Lemma surplus_arguments_witness :
  (tokenCount false "00 %b%w" <= 2)%nat
  /\ formatQuery "00 %b%w" ([VNumber 1; VNumber 2] ++ [VString (str "unused")])
     = Ok [0; 1; 0; 2].
Proof.
  exact (surplus_arguments "00 %b%w" [VNumber 1; VNumber 2] [VString (str "unused")]
                           [0; 1; 0; 2] eq_refl).
Defined.

(** ** The tokens that take the rest of the input, and the skip token *)

Lemma readBytes_throws (width : nat) :
  forall (acc : Z) (input : list Z) (e : exn),
    ScanQuery.readBytes width acc input = Throw e -> e = BigIntTypeError.
Proof.
  induction width as [|width IH]; intros acc input e; cbn [ScanQuery.readBytes].
  - discriminate.
  - destruct input as [|b input]; cbn [shift ScanQuery.shifted_value JSBI_BigInt bind].
    + now intros [= <-].
    + apply IH.
Qed.

(** The walk of [scanQuery] never throws the error of the remaining bytes:
    that error is the final check only. *)
Lemma scan_walk_not_remaining (L : Z) (format : string) :
  forall (st : ScanQuery.state) (n : nat),
    ScanQuery.walk L st format <> Throw (BytesRemaining n).
Proof.
  induction format as [|c format IH]; intros st n; [discriminate|].
  rewrite scan_walk_cons.
  destruct (ScanQuery.step L st c) as [st1|e|] eqn:Hstep; cbn [bind];
    [apply IH| |discriminate].
  intros [= ->]. revert Hstep. unfold ScanQuery.step.
  destruct (ScanQuery.escaped st).
  - destruct (Ascii.eqb c "?"); [discriminate|].
    destruct (FORMAT_TYPE_LEN_DICT c).
    + destruct (ScanQuery.readBytes _ _ _) as [r|e|] eqn:Hread; cbn [bind];
        try discriminate.
      apply readBytes_throws in Hread. subst e. discriminate.
    + destruct (Ascii.eqb c "s" || Ascii.eqb c "x").
      * destruct (shift (ScanQuery.inputStack st)) as [hi stack1].
        destruct (shift stack1) as [lo stack2].
        destruct (splice _ stack2). discriminate.
      * destruct (Ascii.eqb c "*"); [discriminate|].
        destruct (Ascii.eqb c "#"); discriminate.
  - destruct (Ascii.eqb c "%"); [destruct (ScanQuery.half st); discriminate|].
    destruct (Ascii.eqb c " "); [discriminate|].
    destruct (ScanQuery.half st); [|discriminate].
    destruct (shift (ScanQuery.inputStack st)) as [inputValue inputStack'].
    destruct (ScanQuery.differs _ _); discriminate.
Qed.

(** X10.  A format that ends with the token [*] or [#] never leaves bytes: the
    call never throws the error of the remaining bytes, and when the part
    before the token is read without failure, nothing being pending, the
    call returns the values of that part and then the whole rest of the
    input, as a string for [*] and as bytes for [#]. *)
Theorem rest_token_exhausts (query : list Z) (before : string) (char : ascii) :
  char = "*"%char \/ char = "#"%char ->
  (forall n : nat,
      scanQuery query (before ++ tokenFormat char) <> Throw (BytesRemaining n))
  /\ (forall st : ScanQuery.state,
         ScanQuery.walk (Z.of_nat (List.length query)) (ScanQuery.init query) before = Ok st ->
         ScanQuery.half st = None -> ScanQuery.escaped st = false ->
         scanQuery query (before ++ tokenFormat char)
         = Ok (ScanQuery.result st
               ++ [if Ascii.eqb char "*"
                   then VString (fromCharCode (ScanQuery.inputStack st))
                   else VUint8Array (List.map (fun n => ToUint8 (Num n))
                                              (ScanQuery.inputStack st))])).
Proof.
  intros Hchar.
  assert (Hrest : forall st : ScanQuery.state,
             ScanQuery.half st = None -> ScanQuery.escaped st = false ->
             ScanQuery.walk (Z.of_nat (List.length query)) st (tokenFormat char)
             = Ok {| ScanQuery.result :=
                       ScanQuery.result st
                       ++ [if Ascii.eqb char "*"
                           then VString (fromCharCode (ScanQuery.inputStack st))
                           else VUint8Array (List.map (fun n => ToUint8 (Num n))
                                                      (ScanQuery.inputStack st))];
                     ScanQuery.inputStack := []; ScanQuery.half := None;
                     ScanQuery.escaped := false |}).
  { intros [res input h e]. cbn [ScanQuery.half ScanQuery.escaped]. intros -> ->.
    destruct Hchar; subst char; reflexivity. }
  split.
  - intros n. unfold scanQuery. rewrite scan_walk_app.
    destruct (ScanQuery.walk _ (ScanQuery.init query) before) as [st|e|] eqn:Hwalk;
      cbn [bind]; [| |discriminate].
    + destruct (ScanQuery.escaped st) eqn:Hesc.
      * (* the escape marker of the token is itself read in escaped mode *)
        unfold tokenFormat. rewrite scan_walk_cons.
        rewrite scan_step_unrecognized by (trivial; reflexivity). discriminate.
      * destruct (ScanQuery.half st) eqn:Hhalf.
        -- unfold tokenFormat. rewrite scan_walk_cons. unfold ScanQuery.step.
           rewrite Hesc, Hhalf. discriminate.
        -- rewrite Hrest by assumption. discriminate.
    + intros [= ->]. now apply scan_walk_not_remaining in Hwalk.
  - intros st Hwalk Hhalf Hesc. unfold scanQuery.
    rewrite scan_walk_app, Hwalk. cbn [bind]. now rewrite Hrest.
Qed.

Lemma rest_token_exhausts_witness :
  scanQuery [0x18; 0x41; 0x42] ("18" ++ tokenFormat "*") = Ok [VString (str "AB")].
Proof.
  exact (proj2 (rest_token_exhausts [0x18; 0x41; 0x42] "18" "*" (or_introl eq_refl))
               {| ScanQuery.result := []; ScanQuery.inputStack := [0x41; 0x42];
                  ScanQuery.half := None; ScanQuery.escaped := false |}
               eq_refl eq_refl eq_refl).
Defined.

(** A step of [scanQuery] that succeeds does not depend on the length of
    the input, which is used in the text of the mismatch error only. *)
Lemma scan_step_length (L L' : Z) (st st' : ScanQuery.state) (c : ascii) :
  ScanQuery.step L st c = Ok st' -> ScanQuery.step L' st c = Ok st'.
Proof.
  unfold ScanQuery.step.
  destruct (ScanQuery.escaped st); trivial.
  destruct (Ascii.eqb c "%"); trivial.
  destruct (Ascii.eqb c " "); trivial.
  destruct (ScanQuery.half st); trivial.
  destruct (shift (ScanQuery.inputStack st)) as [inputValue inputStack'].
  destruct (ScanQuery.differs _ _); [discriminate|trivial].
Qed.

Lemma scan_walk_length (L L' : Z) (format : string) :
  forall st st' : ScanQuery.state,
    ScanQuery.walk L st format = Ok st' -> ScanQuery.walk L' st format = Ok st'.
Proof.
  induction format as [|c format IH]; intros st st'; [trivial|].
  rewrite !scan_walk_cons.
  destruct (ScanQuery.step L st c) as [st1| |] eqn:Hstep; cbn [bind]; try discriminate.
  rewrite (scan_step_length L L' _ _ _ Hstep). cbn [bind]. apply IH.
Qed.

(** X11.  The skip token takes one byte and returns no value: a format that
    starts with [%?] decodes a buffer to the values its rest decodes the
    buffer without its first byte to; on the empty buffer the token passes
    without an error. *)
Theorem skip_token (b : Z) (query : list Z) (format : string) (values : list value) :
  (scanQuery (b :: query) (tokenFormat "?" ++ format) = Ok values
   <-> scanQuery query format = Ok values)
  /\ scanQuery [] (tokenFormat "?" ++ format) = scanQuery [] format.
Proof.
  split; [|reflexivity].
  unfold scanQuery.
  change (ScanQuery.walk (Z.of_nat (List.length (b :: query)))
            (ScanQuery.init (b :: query)) (tokenFormat "?" ++ format))
    with (ScanQuery.walk (Z.of_nat (List.length (b :: query)))
            (ScanQuery.init query) format).
  split.
  - destruct (ScanQuery.walk _ _ format) as [st| |] eqn:Hwalk; cbn [bind];
      try discriminate.
    now rewrite (scan_walk_length _ (Z.of_nat (List.length query)) _ _ _ Hwalk).
  - destruct (ScanQuery.walk (Z.of_nat (List.length query)) _ format) as [st| |] eqn:Hwalk;
      cbn [bind]; try discriminate.
    now rewrite (scan_walk_length _ (Z.of_nat (List.length (b :: query))) _ _ _ Hwalk).
Qed.

(** ** The size of a fixed format *)

Lemma pushBytes_length (width : nat) (n : Z) :
  List.length (FormatQuery.pushBytes width n) = width.
Proof. induction width as [|width IH]; cbn [FormatQuery.pushBytes List.length]; auto. Qed.

Lemma fixed_format_walk (format : string) :
  forall (half : option ascii) (escaped : bool) (n : nat),
    fixedSize half escaped format = Some n ->
    forall (r : list number) (args : list value) (st' : FormatQuery.state),
      FormatQuery.walk {| FormatQuery.result := r; FormatQuery.half := half;
                          FormatQuery.argStack := args;
                          FormatQuery.escaped := escaped |} format
      = Ok st' ->
      List.length (FormatQuery.result st') = (List.length r + n)%nat.
Proof.
  induction format as [|c format IH]; intros half escaped n Hsize r args st'.
  - cbn in Hsize. injection Hsize as <-. cbn. intros [= <-]. cbn. lia.
  - rewrite format_walk_cons. cbn [fixedSize] in Hsize. unfold FormatQuery.step.
    cbn [FormatQuery.escaped FormatQuery.half FormatQuery.result FormatQuery.argStack].
    destruct escaped.
    + destruct (FORMAT_TYPE_LEN_DICT c) as [width|]; [|discriminate].
      destruct (fixedSize half false format) as [m|] eqn:Hm; [|discriminate].
      injection Hsize as <-.
      destruct (shift args) as [shifted args'].
      destruct (JSBI_BigInt _) as [numberValue| |]; cbn [bind]; try discriminate.
      intros Hwalk. apply IH with (1 := Hm) in Hwalk.
      rewrite Hwalk, length_app, pushBytes_length. lia.
    + destruct (Ascii.eqb c "%").
      * destruct half; [discriminate|]. cbn [bind]. now apply IH.
      * destruct (Ascii.eqb c " "); [now apply IH|].
        destruct half as [h|]; cbn [bind]; [|now apply IH].
        destruct (fixedSize None false format) as [m|] eqn:Hm; [|discriminate].
        injection Hsize as <-.
        intros Hwalk. apply IH with (1 := Hm) in Hwalk.
        rewrite Hwalk, length_app. cbn [List.length]. lia.
Qed.

(** X12.  For a format of literal bytes and fixed-width tokens the buffer that
    [formatQuery] returns has the size of the format, whatever the
    arguments: the size that [scanQuery] asks of a buffer for that format. *)
Theorem fixed_format_size (format : string) (args : list value) (bytes : list Z)
        (n : nat) :
  fixedSize None false format = Some n ->
  formatQuery format args = Ok bytes ->
  List.length bytes = n
  /\ (forall (query : list Z) (values : list value),
         scanQuery query format = Ok values -> List.length query = n).
Proof.
  intros Hsize. unfold formatQuery, FormatQuery.init.
  destruct (FormatQuery.walk _ format) as [st| |] eqn:Hwalk; cbn [bind]; try discriminate.
  intros [= <-]. split.
  - rewrite length_map. now rewrite (fixed_format_walk _ _ _ _ Hsize _ _ _ Hwalk).
  - intros query values. unfold scanQuery.
    destruct (ScanQuery.walk _ _ format) as [st1| |] eqn:Hscan; cbn [bind];
      try discriminate.
    destruct (ScanQuery.inputStack st1) eqn:Hstack; [|discriminate]. intros _.
    pose proof (fixed_walk_enough _ _ _ _ Hsize _ _ _ _ Hscan) as Henough.
    destruct (split_length n (List.length query - n) query)
      as (used & extra & -> & Hused & Hextra); [lia|].
    destruct (fixed_walk _ _ _ _ Hsize _ _ _ _ _ Hused Hscan) as (Hst & _).
    rewrite Hstack in Hst. subst extra. now rewrite app_nil_r.
Qed.

Lemma fixed_format_size_witness :
  List.length [0x18; 0x06; 0; 0; 0; 7] = 6%nat
  /\ (forall (query : list Z) (values : list value),
         scanQuery query "1806 %d" = Ok values -> List.length query = 6%nat).
Proof.
  exact (fixed_format_size "1806 %d" [VNumber 7] [0x18; 0x06; 0; 0; 0; 7] 6
                           eq_refl eq_refl).
Defined.

(** ** Integers beyond the width, strings beyond the input, negative values *)

(** X13.  An integer is encoded modulo [2 ^ (8 * width)], in two's complement
    when it is negative: whatever the integer, the bytes that [formatQuery]
    returns for a fixed-width token are decoded by [scanQuery] to the
    integer modulo [2 ^ (8 * width)]. *)
Theorem integer_wraps (char : ascii) (width : nat) (n : Z) (v : value) :
  FORMAT_TYPE_LEN_DICT char = Some width ->
  v = VNumber n \/ v = VBigInt n ->
  formatQuery (tokenFormat char) [v] = Ok (bigEndianBytes width n)
  /\ scanQuery (bigEndianBytes width n) (tokenFormat char)
     = Ok [VBigInt (n mod 2 ^ (8 * Z.of_nat width))]
  /\ bigEndianBytes width n = bigEndianBytes width (n mod 2 ^ (8 * Z.of_nat width)).
Proof.
  intros Hdict Hv.
  assert (Hscan : scanQuery (bigEndianBytes width n) (tokenFormat char)
                  = Ok [VBigInt (n mod 2 ^ (8 * Z.of_nat width))]).
  { unfold scanQuery, tokenFormat, ScanQuery.init.
    rewrite scan_walk_cons, scan_percent. cbn [bind].
    rewrite scan_walk_cons, (scan_int_token _ _ _ _ _ _ Hdict).
    rewrite <- pushBytes_bigEndian, <- (app_nil_r (List.map _ _)).
    rewrite readBytes_pushBytes.
    cbn [bind fst snd ScanQuery.walk ScanQuery.inputStack ScanQuery.result app].
    now rewrite Z.lor_0_l. }
  split; [|split; [exact Hscan|]].
  - apply formatQuery_int_token; trivial. destruct Hv; subst v; reflexivity.
  - unfold bigEndianBytes. apply map_ext_in. intros i Hi. apply in_seq in Hi.
    apply Z.bits_inj'. intros k Hk.
    rewrite !Z.land_spec, !Z.shiftr_spec by lia.
    change 255 with (Z.ones 8).
    destruct (Z.lt_ge_cases k 8) as [Hlow|Hhigh].
    + rewrite Z.mod_pow2_bits_low by lia. reflexivity.
    + now rewrite Z.ones_spec_high, !andb_false_r by lia.
Qed.

Lemma integer_wraps_witness :
  formatQuery (tokenFormat "w") [VNumber (-2)] = Ok [0xFF; 0xFE]
  /\ scanQuery [0xFF; 0xFE] (tokenFormat "w") = Ok [VBigInt 0xFFFE].
Proof.
  destruct (integer_wraps "w" 2 (-2) (VNumber (-2)) eq_refl (or_introl eq_refl))
    as (Hformat & Hscan & _).
  split; [exact Hformat|exact Hscan].
Defined.

Lemma splice_beyond {A : Type} (n : Z) (l : list A) :
  Z.of_nat (List.length l) <= n -> splice n l = (l, []).
Proof.
  intros Hn. unfold splice.
  destruct (Z.ltb_spec n 0) as [|_]; [lia|].
  rewrite Z.min_r, Nat2Z.id by lia. now rewrite firstn_all, skipn_all.
Qed.

(** X14.  A string token does not detect an input that ends early: when the
    length read from the two prefix bytes is at least the number of bytes
    that follow, [scanQuery] returns the characters that are there (less the
    last one for [s]) without an error; and on an input of fewer than two
    bytes it returns the empty string. *)
Theorem string_token_short (char : ascii) (hi lo : Z) (body : list Z) :
  char = "x"%char \/ char = "s"%char ->
  0 <= hi < 256 -> 0 <= lo < 256 ->
  Z.of_nat (List.length body) <= hi * 256 + lo ->
  scanQuery (hi :: lo :: body) (tokenFormat char)
  = Ok [VString (if Ascii.eqb char "s" then removelast (fromCharCode body)
                 else fromCharCode body)]
  /\ scanQuery [hi] (tokenFormat char) = Ok [VString []]
  /\ scanQuery [] (tokenFormat char) = Ok [VString []].
Proof.
  intros Hchar Hhi Hlo Hlen. split.
  - unfold scanQuery, tokenFormat, ScanQuery.init.
    rewrite scan_walk_cons, scan_percent. cbn [bind]. rewrite scan_walk_cons.
    assert (Hstep : forall L,
      ScanQuery.step L {| ScanQuery.result := [];
                          ScanQuery.inputStack := hi :: lo :: body;
                          ScanQuery.half := None; ScanQuery.escaped := true |} char
      = let '(kept, newInputStack) := splice (js_or (js_shl hi 8) lo) body in
        Ok {| ScanQuery.result :=
                [VString (if Ascii.eqb char "s"
                          then substring (fromCharCode kept) 0
                                 (Z.of_nat (List.length (fromCharCode kept)) - 1)
                          else fromCharCode kept)];
              ScanQuery.inputStack := newInputStack;
              ScanQuery.half := None; ScanQuery.escaped := false |})
      by (intros L; destruct Hchar; subst char; reflexivity).
    rewrite Hstep, prefix_read, splice_beyond by assumption.
    rewrite substring_drop_last. reflexivity.
  - assert (Hempty : forall n : Z, splice n (@nil Z) = ([], []))
      by (intros n; unfold splice; now rewrite firstn_nil, skipn_nil).
    assert (Hstep : forall L input,
      (List.length input < 2)%nat ->
      ScanQuery.step L {| ScanQuery.result := []; ScanQuery.inputStack := input;
                          ScanQuery.half := None; ScanQuery.escaped := true |} char
      = Ok {| ScanQuery.result := [VString []]; ScanQuery.inputStack := [];
              ScanQuery.half := None; ScanQuery.escaped := false |}).
    { intros L input Hshort.
      destruct input as [|b [|b' input]]; [| |cbn in Hshort; lia];
        destruct Hchar; subst char; unfold ScanQuery.step;
        cbn [ScanQuery.escaped Ascii.eqb Bool.eqb FORMAT_TYPE_LEN_DICT orb
             ScanQuery.inputStack shift ScanQuery.result ScanQuery.half];
        rewrite Hempty; reflexivity. }
    split; unfold scanQuery, tokenFormat, ScanQuery.init;
      rewrite scan_walk_cons, scan_percent; cbn [bind];
      rewrite scan_walk_cons, Hstep by (cbn; lia); reflexivity.
Qed.

Lemma string_token_short_witness :
  scanQuery (0x00 :: 0x05 :: [0x68; 0x69]) (tokenFormat "x") = Ok [VString (str "hi")].
Proof.
  refine (proj1 (string_token_short "x" 0x00 0x05 [0x68; 0x69] (or_introl eq_refl) _ _ _));
    [split; [discriminate|reflexivity]..|discriminate].
Defined.

(** X15.  On a negative value that passes the two checks, the loop of [int2BCD]
    never ends: no amount of fuel gives a result. *)
Theorem int2BCD_negative_never_returns (fuel : nat) (value length : Z) :
  value < 0 -> length <= 4 -> int2BCD fuel value length = None.
Proof.
  intros Hneg Hlen. unfold int2BCD.
  destruct (Z.gtb_spec length 4) as [|_]; [lia|].
  assert (0 <= 10 ^ (length * 2)) by (apply Z.pow_nonneg; lia).
  destruct (Z.gtb_spec value (10 ^ (length * 2) - 1)) as [|_]; [lia|].
  now rewrite int2BCD_loop_negative.
Qed.

Lemma int2BCD_negative_never_returns_witness : int2BCD 1000 (-1) 1 = None.
Proof. apply int2BCD_negative_never_returns; [reflexivity|discriminate]. Defined.
